(** * Loadout Optimizer: edit reducer and initial-loadout resolution

    A shallow embedding of
      - [src/app/loadout-builder/loadout-builder-reducer.ts]
        ([lbStateInit], [lbStateReducer], [mergeLoadoutParameters]) and
      - [src/app/loadout-builder/initial-loadout.ts]
        ([useInitialLoadout], [sanitizeLoadoutParameters]),
    followed by the properties of the specification that concern them.

    JavaScript objects used as dictionaries are finite maps; a key that is
    written with the value [undefined] stays in the map with the value
    [None], and reading a property ([obj[k]]) does not tell the two apart.
    Side effects ([showNotification], [navigate]) are collected in the order
    in which the code performs them. *)

From Stdlib Require Import ZArith Ascii String List Bool Lia.
From Stdlib Require QArith.
From stdpp Require Import base option list gmap strings fin_maps pretty.
Import ListNotations.

Local Open Scope Z_scope.
Local Open Scope string_scope.
Local Open Scope list_scope.

(** ** JavaScript values *)

(** A number that is an integer or [NaN] (what [parseInt] can return). *)
Inductive JsNumber : Type :=
  | JsInt (z : Z)
  | JsNaN.

(** [a === b] on numbers: [NaN] is different from everything. *)
Definition js_strict_eqb (a b : JsNumber) : bool :=
  match a, b with
  | JsInt x, JsInt y => Z.eqb x y
  | _, _ => false
  end.

(** Outcome of a call that may throw an [Error] carrying a [message]. *)
Inductive Completion (A : Type) : Type :=
  | Return (a : A)
  | Throw (message : string).
Arguments Return {A} a.
Arguments Throw {A} message.

(** Truthiness of the optional values the code tests with [if (x)], [!x],
    [x && ...] and [x || ...]. *)
Definition truthy_string (s : option string) : bool :=
  match s with
  | Some s => negb (String.eqb s "")
  | None => false
  end.

Definition truthy_number (n : option Z) : bool :=
  match n with
  | Some z => negb (Z.eqb z 0)
  | None => false
  end.

(** [obj[k]] on an object whose keys are numbers. *)
Definition prop {V : Type} (obj : gmap Z (option V)) (k : Z) : option V :=
  match obj !! k with
  | Some v => v
  | None => None
  end.

(** [a ?? b]. *)
Definition nullish {A : Type} (a : option A) (b : A) : A :=
  match a with
  | Some x => x
  | None => b
  end.

(** ** Data model *)

(** [DestinyClass.Unknown] of bungie-api-ts. *)
Definition DestinyClass_Unknown : Z := 3.

Record StatConstraint : Type := {
  statHash : Z;
  minTier : option Z;
  maxTier : option Z
}.

(** [LoadoutParameters] of dim-api-types: every field is optional. The fields
    the code reads or writes are named; [otherParameters] holds the remaining
    ones by name. *)
Record LoadoutParameters : Type := {
  statConstraints : option (list StatConstraint);
  mods : option (list Z);
  query : option string;
  assumeArmorMasterwork : option Z;
  lockArmorEnergyType : option Z;
  exoticArmorHash : option Z;
  otherParameters : gmap string string
}.

(** [emptyObject()] / [{}] at type [LoadoutParameters]. *)
Definition emptyParameters : LoadoutParameters :=
  {| statConstraints := None; mods := None; query := None;
     assumeArmorMasterwork := None; lockArmorEnergyType := None;
     exoticArmorHash := None; otherParameters := ∅ |}.

(** An object literal that writes some of the fields of [LoadoutParameters]:
    [None] is a key that the literal does not have, [Some v] is a key written
    with the value [v], which may be [undefined]. *)
Record LoadoutParametersPatch : Type := {
  patch_mods : option (option (list Z));
  patch_assumeArmorMasterwork : option (option Z);
  patch_lockArmorEnergyType : option (option Z);
  patch_exoticArmorHash : option (option Z)
}.

(** [{ ...parameters, ...patch }]. *)
Definition spreadPatch (parameters : option LoadoutParameters)
    (patch : LoadoutParametersPatch) : LoadoutParameters :=
  let p := nullish parameters emptyParameters in
  {| statConstraints := statConstraints p;
     mods := nullish (patch_mods patch) (mods p);
     query := query p;
     assumeArmorMasterwork :=
       nullish (patch_assumeArmorMasterwork patch) (assumeArmorMasterwork p);
     lockArmorEnergyType :=
       nullish (patch_lockArmorEnergyType patch) (lockArmorEnergyType p);
     exoticArmorHash := nullish (patch_exoticArmorHash patch) (exoticArmorHash p);
     otherParameters := otherParameters p |}.

(** [{ ...a, ...b }] for two parameter objects of the declared type, in
    which a key is present exactly when it has a value of the type of the
    field. An object decoded from JSON can hold a key with [null] or with a
    value of another type, and the spread copies it all the same:
    [ownProperties raw ∪ encodeParameters a] below is the spread on any
    decoded value, and [encodeParameters_spread] relates the two. *)
Definition spreadParameters (a b : LoadoutParameters) : LoadoutParameters :=
  {| statConstraints := nullish (Some <$> statConstraints b) (statConstraints a);
     mods := nullish (Some <$> mods b) (mods a);
     query := nullish (Some <$> query b) (query a);
     assumeArmorMasterwork :=
       nullish (Some <$> assumeArmorMasterwork b) (assumeArmorMasterwork a);
     lockArmorEnergyType :=
       nullish (Some <$> lockArmorEnergyType b) (lockArmorEnergyType a);
     exoticArmorHash := nullish (Some <$> exoticArmorHash b) (exoticArmorHash a);
     otherParameters := otherParameters b ∪ otherParameters a |}.

Record LoadoutItem : Type := {
  li_id : string;
  li_hash : Z;
  li_amount : Z;
  li_equip : bool;
  li_socketOverrides : option (gmap Z Z)
}.

Record Loadout : Type := {
  lo_id : string;
  lo_classType : JsNumber;
  lo_name : string;
  lo_items : list LoadoutItem;
  lo_parameters : option LoadoutParameters;
  lo_notes : option string
}.

(** The parts of a manifest item definition that the code looks at. *)
Record DestinyItemPlugDefinition : Type := { plugCategoryHash : Z }.
Record DestinyEquippingBlockDefinition : Type := { uniqueLabel : option string }.
Record DestinyItemInventoryBlockDefinition : Type := { bucketTypeHash : Z }.
Record DestinyDisplayPropertiesDefinition : Type := { name : string }.

Record DestinyInventoryItemDefinition : Type := {
  def_hash : Z;
  displayProperties : DestinyDisplayPropertiesDefinition;
  plug : option DestinyItemPlugDefinition;
  equippingBlock : option DestinyEquippingBlockDefinition;
  inventory : option DestinyItemInventoryBlockDefinition;
  def_classType : Z
}.

(** [defs.InventoryItem.get(hash)] is a lookup in [InventoryItem]. *)
Record D2ManifestDefinitions : Type := {
  InventoryItem : gmap Z DestinyInventoryItemDefinition
}.

Record InventoryBucket : Type := { bucket_hash : Z }.

Record DimItem : Type := {
  item_id : string;
  item_hash : Z;
  bucket : InventoryBucket
}.

Record DimStore : Type := {
  store_id : string;
  store_classType : Z;
  current : bool
}.

(** Modelled from the spec: the declarations of [StatFilters] and [ArmorSet]
    ([loadout-builder/types]) are not part of the sources. [statFilters] is
    the "per-stat enabled/min/max state" keyed by stat hash, and an [ArmorSet]
    is the "secondary result set held for side-by-side comparison". *)
Record MinMaxIgnored : Type := {
  filter_min : Z;
  filter_max : Z;
  ignored : bool
}.

Abbreviation StatFilters := (gmap Z MinMaxIgnored).

Record ArmorSet : Type := {
  armor : list (list DimItem);
  stats : gmap Z Z
}.

Abbreviation PinnedItems := (gmap Z (option DimItem)).
Abbreviation ExcludedItems := (gmap Z (option (list DimItem))).

Record ModPicker : Type := {
  open : bool;
  plugCategoryHashWhitelist : option (list Z)
}.

Record LoadoutBuilderState : Type := {
  loadout : Loadout;
  statOrder : list Z;
  statFilters : StatFilters;
  pinnedItems : PinnedItems;
  excludedItems : ExcludedItems;
  selectedStoreId : option string;
  modPicker : ModPicker;
  compareSet : option ArmorSet
}.

(** The argument of [showNotification]. *)
Record NotifyInput : Type := {
  notify_type : string;
  notify_title : string;
  notify_body : string
}.

Record InitializerArgs : Type := {
  args_defs : D2ManifestDefinitions;
  stores : list DimStore;
  initialLoadout : Loadout;
  customStatsByClass : gmap Z (list Z);
  loStatOrderByClass : gmap Z (list Z)
}.

Inductive LoadoutBuilderAction : Type :=
  | changeCharacter (storeId : string)
  | statFiltersChanged (newStatFilters : StatFilters)
  | sortOrderChanged (sortOrder : list Z)
  | assumeArmorMasterworkChanged (value : option Z)
  | lockArmorEnergyTypeChanged (value : option Z)
  | pinItem (item : DimItem)
  | setPinnedItems (items : list DimItem)
  | unpinItem (item : DimItem)
  | excludeItem (item : DimItem)
  | unexcludeItem (item : DimItem)
  | lockedModsChanged (lockedMods : list DestinyInventoryItemDefinition)
  | removeLockedMod (mod_ : DestinyInventoryItemDefinition)
  | addGeneralMods (newGeneralMods : list DestinyInventoryItemDefinition)
  | updateSubclass (item : DimItem)
  | removeSubclass
  | updateSubclassSocketOverrides (socketOverrides : gmap Z Z)
  | removeSingleSubclassSocketOverride (plug_ : DestinyInventoryItemDefinition)
  | lockExotic (lockedExoticHash : Z)
  | removeLockedExotic
  | openModPicker (whitelist : option (list Z))
  | closeModPicker
  | openCompareDrawer (set : ArmorSet)
  | closeCompareDrawer.

(** ** The reducer *)

(** Functional record updates, one per field that some transition writes. *)
Definition with_loadout (s : LoadoutBuilderState) (l : Loadout) :=
  {| loadout := l; statOrder := statOrder s; statFilters := statFilters s;
     pinnedItems := pinnedItems s; excludedItems := excludedItems s;
     selectedStoreId := selectedStoreId s; modPicker := modPicker s;
     compareSet := compareSet s |}.

Definition with_statOrder (s : LoadoutBuilderState) (o : list Z) :=
  {| loadout := loadout s; statOrder := o; statFilters := statFilters s;
     pinnedItems := pinnedItems s; excludedItems := excludedItems s;
     selectedStoreId := selectedStoreId s; modPicker := modPicker s;
     compareSet := compareSet s |}.

Definition with_statFilters (s : LoadoutBuilderState) (f : StatFilters) :=
  {| loadout := loadout s; statOrder := statOrder s; statFilters := f;
     pinnedItems := pinnedItems s; excludedItems := excludedItems s;
     selectedStoreId := selectedStoreId s; modPicker := modPicker s;
     compareSet := compareSet s |}.

Definition with_pinnedItems (s : LoadoutBuilderState) (p : PinnedItems) :=
  {| loadout := loadout s; statOrder := statOrder s;
     statFilters := statFilters s;
     pinnedItems := p; excludedItems := excludedItems s;
     selectedStoreId := selectedStoreId s; modPicker := modPicker s;
     compareSet := compareSet s |}.

Definition with_excludedItems (s : LoadoutBuilderState) (e : ExcludedItems) :=
  {| loadout := loadout s; statOrder := statOrder s;
     statFilters := statFilters s;
     pinnedItems := pinnedItems s; excludedItems := e;
     selectedStoreId := selectedStoreId s; modPicker := modPicker s;
     compareSet := compareSet s |}.

Definition with_selectedStoreId (s : LoadoutBuilderState) (i : option string) :=
  {| loadout := loadout s; statOrder := statOrder s;
     statFilters := statFilters s;
     pinnedItems := pinnedItems s; excludedItems := excludedItems s;
     selectedStoreId := i; modPicker := modPicker s;
     compareSet := compareSet s |}.

Definition with_modPicker (s : LoadoutBuilderState) (m : ModPicker) :=
  {| loadout := loadout s; statOrder := statOrder s;
     statFilters := statFilters s;
     pinnedItems := pinnedItems s; excludedItems := excludedItems s;
     selectedStoreId := selectedStoreId s; modPicker := m;
     compareSet := compareSet s |}.

Definition with_compareSet (s : LoadoutBuilderState) (c : option ArmorSet) :=
  {| loadout := loadout s; statOrder := statOrder s;
     statFilters := statFilters s;
     pinnedItems := pinnedItems s; excludedItems := excludedItems s;
     selectedStoreId := selectedStoreId s; modPicker := modPicker s;
     compareSet := c |}.

Definition with_parameters (l : Loadout) (p : option LoadoutParameters) :=
  {| lo_id := lo_id l; lo_classType := lo_classType l; lo_name := lo_name l;
     lo_items := lo_items l; lo_parameters := p; lo_notes := lo_notes l |}.

(** [mergeLoadoutParameters(state, params)]. *)
Definition mergeLoadoutParameters (state : LoadoutBuilderState)
    (params : LoadoutParametersPatch) : LoadoutBuilderState :=
  with_loadout state
    (with_parameters (loadout state)
       (Some (spreadPatch (lo_parameters (loadout state)) params))).

(** [state.loadout.parameters?.mods ?? []]. *)
Definition currentMods (state : LoadoutBuilderState) : list Z :=
  nullish (lo_parameters (loadout state) ≫= mods) [].

(** [_.keyBy(items, (i) => i.bucket.hash)]: later items replace earlier ones
    of the same bucket. *)
Definition keyByBucket (items : list DimItem) : PinnedItems :=
  fold_left (fun acc i => <[bucket_hash (bucket i) := Some i]> acc) items ∅.

(** [list.some((i) => i.id === item.id)]. *)
Definition someSameId (item : DimItem) (l : list DimItem) : bool :=
  existsb (fun i => String.eqb (item_id i) (item_id item)) l.

(** [list.filter((i) => i.id !== item.id)]. *)
Definition filterOtherId (item : DimItem) (l : list DimItem) : list DimItem :=
  List.filter (fun i => negb (String.eqb (item_id i) (item_id item))) l.

(** [newMods.splice(indexToRemove, 1)] at the index found by
    [newMods.findIndex((mod) => mod === hash)], when there is one. *)
Fixpoint removeFirst (hash : Z) (l : list Z) : list Z :=
  match l with
  | [] => []
  | x :: r => if Z.eqb x hash then r else x :: removeFirst hash r
  end.

Section Reducer.

(** [t] of i18next: a key and its interpolation arguments. *)
Variable t : string -> list (string * string) -> string.

(** [armor2PlugCategoryHashesByName.general] ([search/d2-known-values]). *)
Variable general : Z.

Variable defs : D2ManifestDefinitions.

(** [defs.InventoryItem.get(mod)?.plug?.plugCategoryHash === general]. *)
Definition isGeneralMod (mod_ : Z) : bool :=
  match InventoryItem defs !! mod_ ≫= plug with
  | Some p => Z.eqb (plugCategoryHash p) general
  | None => false
  end.

Definition generalModsCount (l : list Z) : nat :=
  length (List.filter isGeneralMod l).

(** The accumulators of the loop of [addGeneralMods]. *)
Record AddModsLoop : Type := {
  newMods : list Z;
  currentGeneralModsCount : nat;
  failures : list string
}.

(** One iteration of [for (const mod of action.mods)]. *)
Definition addGeneralMods_step (acc : AddModsLoop)
    (mod_ : DestinyInventoryItemDefinition) : AddModsLoop :=
  if (currentGeneralModsCount acc <? 5)%nat then
    {| newMods := newMods acc ++ [def_hash mod_];
       currentGeneralModsCount := S (currentGeneralModsCount acc);
       failures := failures acc |}
  else
    {| newMods := newMods acc;
       currentGeneralModsCount := currentGeneralModsCount acc;
       failures := failures acc ++ [name (displayProperties mod_)] |}.

Definition addGeneralMods_loop (state : LoadoutBuilderState)
    (actionMods : list DestinyInventoryItemDefinition) : AddModsLoop :=
  fold_left addGeneralMods_step actionMods
    {| newMods := currentMods state;
       currentGeneralModsCount := generalModsCount (currentMods state);
       failures := [] |}.

(** The notification of [addGeneralMods], shown when [failures.length] is
    not zero. *)
Definition unableToAddAllMods (failed : list string) : list NotifyInput :=
  match failed with
  | [] => []
  | _ :: _ =>
      [ {| notify_type := "warning";
           notify_title := t "LoadoutBuilder.UnableToAddAllMods" [];
           notify_body :=
             t "LoadoutBuilder.UnableToAddAllModsBody"
               [("mods", String.concat ", " failed)] |} ]
  end.

(** [lbStateReducer(defs)(state, action)]: the next state and the
    notifications shown on the way. *)
Definition lbStateReducer (state : LoadoutBuilderState)
    (action : LoadoutBuilderAction)
    : LoadoutBuilderState * list NotifyInput :=
  match action with
  | changeCharacter storeId =>
      (with_excludedItems
         (with_pinnedItems (with_selectedStoreId state (Some storeId)) ∅) ∅,
       [])
  | statFiltersChanged f => (with_statFilters state f, [])
  | pinItem item =>
      let bucketHash := bucket_hash (bucket item) in
      (with_excludedItems
         (with_pinnedItems state
            (<[bucketHash := Some item]> (pinnedItems state)))
         (<[bucketHash := None]> (excludedItems state)),
       [])
  | setPinnedItems items =>
      (with_excludedItems (with_pinnedItems state (keyByBucket items)) ∅, [])
  | unpinItem item =>
      let bucketHash := bucket_hash (bucket item) in
      (with_pinnedItems state (<[bucketHash := None]> (pinnedItems state)),
       [])
  | excludeItem item =>
      let bucketHash := bucket_hash (bucket item) in
      if match prop (excludedItems state) bucketHash with
         | Some l => someSameId item l
         | None => false
         end
      then (state, [])
      else
        let existingExcluded :=
          nullish (prop (excludedItems state) bucketHash) [] in
        (with_excludedItems
           (with_pinnedItems state
              (<[bucketHash := None]> (pinnedItems state)))
           (<[bucketHash := Some (existingExcluded ++ [item])]>
              (excludedItems state)),
         [])
  | unexcludeItem item =>
      let bucketHash := bucket_hash (bucket item) in
      let newExcluded :=
        filterOtherId item
          (nullish (prop (excludedItems state) bucketHash) []) in
      (with_excludedItems state
         (<[bucketHash :=
              if (0 <? length newExcluded)%nat then Some newExcluded
              else None]> (excludedItems state)),
       [])
  | lockedModsChanged lockedMods =>
      (mergeLoadoutParameters state
         {| patch_mods := Some (Some (map def_hash lockedMods));
            patch_assumeArmorMasterwork := None;
            patch_lockArmorEnergyType := None;
            patch_exoticArmorHash := None |},
       [])
  | sortOrderChanged sortOrder => (with_statOrder state sortOrder, [])
  | assumeArmorMasterworkChanged v =>
      (mergeLoadoutParameters state
         {| patch_mods := None;
            patch_assumeArmorMasterwork := Some v;
            patch_lockArmorEnergyType := None;
            patch_exoticArmorHash := None |},
       [])
  | lockArmorEnergyTypeChanged v =>
      (mergeLoadoutParameters state
         {| patch_mods := None;
            patch_assumeArmorMasterwork := None;
            patch_lockArmorEnergyType := Some v;
            patch_exoticArmorHash := None |},
       [])
  | addGeneralMods actionMods =>
      let final := addGeneralMods_loop state actionMods in
      (mergeLoadoutParameters state
         {| patch_mods := Some (Some (newMods final));
            patch_assumeArmorMasterwork := None;
            patch_lockArmorEnergyType := None;
            patch_exoticArmorHash := None |},
       unableToAddAllMods (failures final))
  | removeLockedMod mod_ =>
      (mergeLoadoutParameters state
         {| patch_mods :=
              Some (Some (removeFirst (def_hash mod_) (currentMods state)));
            patch_assumeArmorMasterwork := None;
            patch_lockArmorEnergyType := None;
            patch_exoticArmorHash := None |},
       [])
  | updateSubclass _ => (state, [])
  | removeSubclass => (state, [])
  | updateSubclassSocketOverrides _ => (state, [])
  | removeSingleSubclassSocketOverride _ => (state, [])
  | lockExotic lockedExoticHash =>
      (mergeLoadoutParameters state
         {| patch_mods := None;
            patch_assumeArmorMasterwork := None;
            patch_lockArmorEnergyType := None;
            patch_exoticArmorHash := Some (Some lockedExoticHash) |},
       [])
  | removeLockedExotic =>
      (mergeLoadoutParameters state
         {| patch_mods := None;
            patch_assumeArmorMasterwork := None;
            patch_lockArmorEnergyType := None;
            patch_exoticArmorHash := Some None |},
       [])
  | openModPicker whitelist =>
      (with_modPicker state
         {| open := true; plugCategoryHashWhitelist := whitelist |},
       [])
  | closeModPicker =>
      (with_modPicker state
         {| open := false; plugCategoryHashWhitelist := None |},
       [])
  | openCompareDrawer set => (with_compareSet state (Some set), [])
  | closeCompareDrawer => (with_compareSet state None, [])
  end.

(** The state after a sequence of dispatched actions, the notifications
    set aside. *)
Definition run (state : LoadoutBuilderState)
    (actions : list LoadoutBuilderAction) : LoadoutBuilderState :=
  fold_left (fun s a => fst (lbStateReducer s a)) actions state.

End Reducer.

(** ** The initial state of the reducer *)

Section Init.

(** [getCurrentStore] ([inventory/stores-helpers]) and the helpers that
    the file imports from [loadout-params]. *)
Variable getCurrentStore : list DimStore -> option DimStore.
Variable statOrderFromLoadoutParameters : LoadoutParameters -> list Z.
Variable statFiltersFromLoadoutParamaters : LoadoutParameters -> StatFilters.

(** [lbStateInit(args)]. Reading [.id] of the store throws a [TypeError]
    when no store matches the class and there is no current store. The file
    neither imports nor defines [statOrderFromSavedPreferences] and
    [statOrderFromCustomStats]: the branch that calls them, taken when the
    parameters have no [statConstraints], throws a [ReferenceError] at the
    first of the two names, before [statFilters] is computed. *)
Definition lbStateInit (args : InitializerArgs)
    : Completion LoadoutBuilderState :=
  let classType := lo_classType (initialLoadout args) in
  let isKnown := negb (js_strict_eqb classType (JsInt DestinyClass_Unknown)) in
  let matchingClass :=
    if isKnown then
      List.find
        (fun store => js_strict_eqb (JsInt (store_classType store)) classType)
        (stores args)
    else None in
  match
    match matchingClass with
    | Some store => Some store
    | None => getCurrentStore (stores args)
    end
  with
  | None => Throw "TypeError"
  | Some store =>
      let loadoutParameters :=
        nullish (lo_parameters (initialLoadout args)) emptyParameters in
      match statConstraints loadoutParameters with
      | Some _ =>
          Return
            {| loadout := initialLoadout args;
               statOrder := statOrderFromLoadoutParameters loadoutParameters;
               pinnedItems := ∅;
               excludedItems := ∅;
               statFilters :=
                 statFiltersFromLoadoutParamaters loadoutParameters;
               selectedStoreId := Some (store_id store);
               modPicker :=
                 {| open := false; plugCategoryHashWhitelist := None |};
               compareSet := None |}
      | None => Throw "ReferenceError"
      end
  end.

End Init.

(** ** Resolving the initial loadout *)

(** [location.state] as the hook reads it. *)
Record LocationState : Type := {
  state_loadout : option Loadout;
  state_storeId : option string
}.

(** [useLocation()]; [search] is the query string as the list of its
    decoded pairs, in order. *)
Record Location : Type := {
  pathname : string;
  state : option LocationState;
  search : list (string * string)
}.

(** [new URLSearchParams(search).get(key)]: the first value of that name. *)
Fixpoint searchParams_get (search : list (string * string)) (key : string)
    : option string :=
  match search with
  | [] => None
  | (k, v) :: rest =>
      if String.eqb k key then Some v else searchParams_get rest key
  end.

(** [const { loadout, storeId } = state] under [if (state)] and
    [if (preloadedLoadout)]. *)
Definition priorLoadout (loc : Location) : option (Loadout * option string) :=
  match state loc with
  | Some st =>
      match state_loadout st with
      | Some loadout => Some (loadout, state_storeId st)
      | None => None
      end
  | None => None
  end.

(** The value decoded from the [s] parameter. *)
Record SubclassParam : Type := {
  subclass_hash : Z;
  subclass_socketOverrides : gmap Z Z
}.

(** What the hook does besides returning, in order. *)
Inductive Effect : Type :=
  | ShowNotification (n : NotifyInput)
  | Navigate (to : string) (replace : bool).

(** The returned tuple [[loadout, selectedStoreId]] and the effects. *)
Record Resolution : Type := {
  resolved_loadout : Loadout;
  resolved_storeId : option string;
  effects : list Effect
}.

(** [delete constraint.maxTier; delete constraint.minTier]. *)
Definition stripTiers (constraint : StatConstraint) : StatConstraint :=
  {| statHash := statHash constraint; minTier := None; maxTier := None |}.

(** [sanitizeLoadoutParameters(loadoutParameters)] on parameters of the
    declared type; [sanitizeJson] below is the same function on any object. *)
Definition sanitizeLoadoutParameters (loadoutParameters : LoadoutParameters)
    : LoadoutParameters :=
  {| query :=
       if truthy_string (query loadoutParameters)
          && (2048 <? String.length (nullish (query loadoutParameters) ""))%nat
       then Some ""
       else query loadoutParameters;
     statConstraints := map stripTiers <$> statConstraints loadoutParameters;
     assumeArmorMasterwork := None;
     lockArmorEnergyType := None;
     mods := mods loadoutParameters;
     exoticArmorHash := exoticArmorHash loadoutParameters;
     otherParameters := otherParameters loadoutParameters |}.

Section Resolver.

Variable t : string -> list (string * string) -> string.

(** [LockableBucketHashes] ([loadout-builder/types]) and
    [defaultLoadoutParameters] (dim-api-types). *)
Variable LockableBucketHashes : list Z.
Variable defaultLoadoutParameters : LoadoutParameters.

(** The decoders, which throw on a malformed payload:
    [parseLoadoutFromURLParam] ([loadout-drawer/LoadoutDrawer2]) and
    [JSON.parse] at the two types it is used at. A decoded value has the
    type the code casts it to. *)
Variable parseLoadoutFromURLParam : string -> Completion (option Loadout).
Variable JSON_parse_subclass : string -> Completion (option SubclassParam).
Variable JSON_parse_parameters : string -> Completion LoadoutParameters.

Variable parseInt : string -> JsNumber.

(** [newLoadout(name, items, classType)] ([loadout-drawer/loadout-utils]). *)
Variable newLoadout : string -> list LoadoutItem -> JsNumber -> Loadout.

(** The notification of the three [catch] blocks. *)
Definition badLoadoutShare (message : string) : Effect :=
  ShowNotification
    {| notify_type := "error";
       notify_title := t "Loadouts.BadLoadoutShare" [];
       notify_body := t "Loadouts.BadLoadoutShareBody" [("error", message)] |}.

(** The predicate of [.find(...)] over the definitions of the equipped
    items. *)
Definition isLockableExotic (i : option DestinyInventoryItemDefinition)
    : bool :=
  match i with
  | Some d =>
      truthy_string (equippingBlock d ≫= uniqueLabel)
      && existsb (Z.eqb (nullish (bucketTypeHash <$> inventory d) 0))
           LockableBucketHashes
  | None => false
  end.

Definition equippedExotic (defs : D2ManifestDefinitions)
    (items : list LoadoutItem) : option DestinyInventoryItemDefinition :=
  mjoin
    (List.find isLockableExotic
       (map (fun li => InventoryItem defs !! li_hash li)
          (List.filter li_equip items))).

(** The first branch: the loadout of the navigation state, with the
    equipped exotic filled in when it names none. *)
Definition preloaded (defs : option D2ManifestDefinitions)
    (loadout : Loadout) : Loadout :=
  match defs with
  | Some defs =>
      if negb (truthy_number (lo_parameters loadout ≫= exoticArmorHash)) then
        match equippedExotic defs (lo_items loadout) with
        | Some exotic =>
            with_parameters loadout
              (Some
                 (spreadPatch (lo_parameters loadout)
                    {| patch_mods := None;
                       patch_assumeArmorMasterwork := None;
                       patch_lockArmorEnergyType := None;
                       patch_exoticArmorHash := Some (Some (def_hash exotic)) |}))
        | None => loadout
        end
      else loadout
  | None => loadout
  end.

(** The second branch, [if (loadoutJSON) { ... }]: the decoded loadout when
    there is one, and the effects. *)
Definition sharedLoadout (loc : Location) : option Loadout * list Effect :=
  match searchParams_get (search loc) "l" with
  | Some loadoutJSON =>
      if truthy_string (Some loadoutJSON) then
        match parseLoadoutFromURLParam loadoutJSON with
        | Return (Some parsedLoadout) => (Some parsedLoadout, [])
        | Return None => (None, [Navigate (pathname loc) true])
        | Throw message =>
            (None, [badLoadoutShare message; Navigate (pathname loc) true])
        end
      else (None, [])
  | None => (None, [])
  end.

(** [subclass] after "Extract subclass info". *)
Definition urlSubclass (loc : Location)
    : option SubclassParam * list Effect :=
  match searchParams_get (search loc) "s" with
  | Some subclassJSON =>
      if truthy_string (Some subclassJSON) then
        match JSON_parse_subclass subclassJSON with
        | Return subclass => (subclass, [])
        | Throw message => (None, [badLoadoutShare message])
        end
      else (None, [])
  | None => (None, [])
  end.

(** [loadoutParameters] after "Default to saved loadout parameters, but
    allow URL to override them", when what [JSON.parse] returns is of the
    type it is cast to: [JSON_parse_parameters] is [JSON.parse] on those
    texts, and on parameters of that type [sanitizeLoadoutParameters] does
    not throw. What the same statements do on any value that [JSON.parse]
    returns, where the sanitizing can throw inside the [try] and leave the
    decoded value in the variable, is [urlLoadoutParametersJson] below. *)
Definition urlLoadoutParameters (loc : Location)
    (savedLoadoutParameters : option LoadoutParameters)
    : option LoadoutParameters * list Effect :=
  match searchParams_get (search loc) "p" with
  | Some urlLoadoutParametersJSON =>
      if truthy_string (Some urlLoadoutParametersJSON) then
        match JSON_parse_parameters urlLoadoutParametersJSON with
        | Return parsed =>
            (Some
               (sanitizeLoadoutParameters
                  (spreadParameters defaultLoadoutParameters parsed)),
             [])
        | Throw message => (savedLoadoutParameters, [badLoadoutShare message])
        end
      else (savedLoadoutParameters, [])
  | None => (savedLoadoutParameters, [])
  end.

(** [classType] after "If the URL params specified an exotic without a
    class, set the class from the exotic". *)
Definition urlClassType (defs : option D2ManifestDefinitions)
    (loc : Location) (loadoutParameters : option LoadoutParameters)
    : JsNumber :=
  let urlClassTypeString := searchParams_get (search loc) "class" in
  let classType :=
    if truthy_string urlClassTypeString
    then parseInt (nullish urlClassTypeString "")
    else JsInt DestinyClass_Unknown in
  match defs with
  | Some defs =>
      let exotic : option Z := loadoutParameters ≫= exoticArmorHash in
      if js_strict_eqb classType (JsInt DestinyClass_Unknown)
         && truthy_number exotic
         && (0 <? nullish exotic 0)%Z
      then
        JsInt
          (nullish (def_classType <$> InventoryItem defs !! nullish exotic 0)
             DestinyClass_Unknown)
      else classType
  | None => classType
  end.

(** The third branch: the loadout built from the separate URL parameters
    and the saved parameters. [randomId] is the string made from
    [Math.random()]. *)
Definition constructedLoadout (classType : JsNumber)
    (loadoutParameters : option LoadoutParameters)
    (urlNotes : option string) (subclass : option SubclassParam)
    (randomId : string) : Loadout :=
  let l := newLoadout "" [] classType in
  {| lo_id := lo_id l;
     lo_classType := lo_classType l;
     lo_name := lo_name l;
     lo_parameters := loadoutParameters;
     lo_notes := if truthy_string urlNotes then urlNotes else None;
     lo_items :=
       match subclass with
       | Some sub =>
           lo_items l ++
           [ {| li_hash := subclass_hash sub;
                li_socketOverrides := Some (subclass_socketOverrides sub);
                li_id := randomId;
                li_amount := 1;
                li_equip := true |} ]
       | None => lo_items l
       end |}.

(** [useInitialLoadout()], as a function of what the hooks it calls
    return. *)
Definition useInitialLoadout (defs : option D2ManifestDefinitions)
    (loc : Location) (savedLoadoutParameters : option LoadoutParameters)
    (randomId : string) : Resolution :=
  match priorLoadout loc with
  | Some (loadout, storeId) =>
      {| resolved_loadout := preloaded defs loadout;
         resolved_storeId := storeId;
         effects := [] |}
  | None =>
      match sharedLoadout loc with
      | (Some parsedLoadout, shareEffects) =>
          {| resolved_loadout := parsedLoadout;
             resolved_storeId := None;
             effects := shareEffects |}
      | (None, shareEffects) =>
          let '(subclass, subclassEffects) := urlSubclass loc in
          let '(loadoutParameters, parameterEffects) :=
            urlLoadoutParameters loc savedLoadoutParameters in
          let classType := urlClassType defs loc loadoutParameters in
          {| resolved_loadout :=
               constructedLoadout classType loadoutParameters
                 (searchParams_get (search loc) "n") subclass randomId;
             resolved_storeId := None;
             effects := shareEffects ++ subclassEffects ++ parameterEffects |}
      end
  end.

End Resolver.

(** ** The [p] parameter as the JSON value it is at run time

    [JSON.parse] returns any JSON value, and the cast to [LoadoutParameters]
    checks nothing. The definitions of this part follow the statements
    between "Default to saved loadout parameters" and the end of that [try]
    block, and [sanitizeLoadoutParameters], on an arbitrary JSON value;
    [urlLoadoutParameters] above is what they do on a value of the declared
    type ([urlLoadoutParameters_refines]). A string is the sequence of its
    code units. *)

(** A number as [JSON.parse] returns it: never [NaN]. *)
Inductive JsonNumber : Type :=
  | Finite (q : QArith_base.Q)
  | PlusInfinity
  | MinusInfinity.

#[warnings="-register-all"]
Inductive Json : Type :=
  | JNull
  | JBool (b : bool)
  | JNumber (n : JsonNumber)
  | JString (s : string)
  | JArray (items : list Json)
  | JObject (properties : gmap string Json).

Definition number (z : Z) : Json := JNumber (Finite (QArith_base.inject_Z z)).

(** Truthiness of a value; [None] is [undefined]. *)
Definition truthy (v : option Json) : bool :=
  match v with
  | None => false
  | Some JNull => false
  | Some (JBool b) => b
  | Some (JNumber (Finite q)) =>
      negb (QArith_base.Qeq_bool q (QArith_base.inject_Z 0))
  | Some (JNumber _) => true
  | Some (JString s) => negb (String.eqb s "")
  | Some (JArray _) => true
  | Some (JObject _) => true
  end.

(** The own enumerable properties of a value, which an object spread
    copies: the keys of an object, the indices of an array or of a string. *)
Definition ownProperties (v : Json) : gmap string Json :=
  match v with
  | JObject properties => properties
  | JArray items => list_to_map (imap (fun i x => (pretty i, x)) items)
  | JString s =>
      list_to_map
        (imap (fun i c => (pretty i, JString (String c EmptyString)))
           (list_ascii_of_string s))
  | _ => ∅
  end.

(** [v?.[key]] for the keys that the code reads ("query",
    "statConstraints", "length"), none of which is on a prototype but
    "length" for arrays and strings. *)
Definition getProperty (v : Json) (key : string) : option Json :=
  match v with
  | JArray items =>
      if String.eqb key "length" then Some (number (Z.of_nat (length items)))
      else ownProperties v !! key
  | JString s =>
      if String.eqb key "length" then Some (number (Z.of_nat (String.length s)))
      else ownProperties v !! key
  | _ => ownProperties v !! key
  end.

Definition numberExceeds2048 (n : JsonNumber) : bool :=
  match n with
  | Finite q => negb (QArith_base.Qle_bool q (QArith_base.inject_Z 2048))
  | PlusInfinity => true
  | MinusInfinity => false
  end.

(** An object literal with an optional property. *)
Definition setField (key : string) (value : option Json)
    (object : gmap string Json) : gmap string Json :=
  match value with
  | Some v => <[key := v]> object
  | None => delete key object
  end.

(** The JSON value of a stat constraint and of parameters of the declared
    type. A key of [otherParameters] that is one of the six names is not a
    field. *)
Definition encodeConstraint (constraint : StatConstraint) : Json :=
  JObject
    (setField "maxTier" (number <$> maxTier constraint)
       (setField "minTier" (number <$> minTier constraint)
          {[ "statHash" := number (statHash constraint) ]})).

Definition encodeParameters (parameters : LoadoutParameters)
    : gmap string Json :=
  setField "statConstraints"
    ((fun l => JArray (map encodeConstraint l)) <$> statConstraints parameters)
    (setField "mods"
       ((fun l => JArray (map number l)) <$> mods parameters)
       (setField "query" (JString <$> query parameters)
          (setField "assumeArmorMasterwork"
             (number <$> assumeArmorMasterwork parameters)
             (setField "lockArmorEnergyType"
                (number <$> lockArmorEnergyType parameters)
                (setField "exoticArmorHash"
                   (number <$> exoticArmorHash parameters)
                   (JString <$> otherParameters parameters)))))).

(** The value of the variable [loadoutParameters] after the [try] block:
    the saved parameters, the sanitized object, or the value as decoded. *)
Inductive UrlParameters : Type :=
  | SavedParameters (saved : option LoadoutParameters)
  | SanitizedParameters (object : gmap string Json)
  | DecodedParameters (raw : Json).

(** What [useSyncSearchQuery] dispatches for a query that is any value. *)
Inductive DispatchedJson : Type :=
  | setSearchQueryJson (query : Json).

Section ResolverJson.

Variable t : string -> list (string * string) -> string.
Variable defaultLoadoutParameters : LoadoutParameters.

(** [JSON.parse], and the pieces of the engine that the code reaches on
    values that are not of the declared type: the number that a value other
    than a number is compared as ([None] is [NaN]), and the messages of the
    two [TypeError]s. *)
Variable JSON_parse : string -> Completion Json.
Variable ToNumber : Json -> option JsonNumber.
Variable notIterableMessage : Json -> string.
Variable nullToObjectMessage : string.

(** What immer does when a property that is not an index is deleted from
    the draft of an array: its development build throws this message, its
    production build records the deletion and leaves the elements as they
    are ([None]). *)
Variable arrayDeleteMessage : option string.

(** [length > 2048], for the value of [draft.query.length]. *)
Definition exceeds2048 (length : option Json) : bool :=
  match length with
  | None => false
  | Some (JNumber n) => numberExceeds2048 n
  | Some other =>
      match ToNumber other with
      | Some n => numberExceeds2048 n
      | None => false
      end
  end.

(** [delete constraint.maxTier; delete constraint.minTier] for one element
    of the iteration. *)
Definition deleteTiers (constraint : Json) : Completion Json :=
  match constraint with
  | JNull => Throw nullToObjectMessage
  | JObject properties =>
      Return (JObject (delete "minTier" (delete "maxTier" properties)))
  | JArray items =>
      match arrayDeleteMessage with
      | Some message => Throw message
      | None => Return (JArray items)
      end
  | other => Return other
  end.

(** The elements on which the two [delete]s throw. *)
Definition refusesDelete (constraint : Json) : bool :=
  match constraint with
  | JNull => true
  | JArray _ =>
      match arrayDeleteMessage with
      | Some _ => true
      | None => false
      end
  | _ => false
  end.

(** The loop over an array, which ends at the first element that throws. *)
Fixpoint deleteTiersEach (items : list Json) : Completion (list Json) :=
  match items with
  | [] => Return []
  | constraint :: rest =>
      match deleteTiers constraint with
      | Throw message => Throw message
      | Return constraint' =>
          match deleteTiersEach rest with
          | Throw message => Throw message
          | Return rest' => Return (constraint' :: rest')
          end
      end
  end.

(** [sanitizeLoadoutParameters] on the object it is given: the result of
    [produce], or what the recipe throws. *)
Definition sanitizeJson (draft : gmap string Json)
    : Completion (gmap string Json) :=
  let draft1 :=
    if truthy (draft !! "query")
       && exceeds2048 (draft !! "query" ≫= fun q => getProperty q "length")
    then <["query" := JString ""]> draft
    else draft in
  match
    if truthy (draft1 !! "statConstraints") then
      match draft1 !! "statConstraints" with
      | Some (JArray items) =>
          match deleteTiersEach items with
          | Return items' =>
              Return (<["statConstraints" := JArray items']> draft1)
          | Throw message => Throw message
          end
      | Some (JString _) => Return draft1
      | Some other => Throw (notIterableMessage other)
      | None => Return draft1
      end
    else Return draft1
  with
  | Return draft2 =>
      Return (delete "lockArmorEnergyType"
                (delete "assumeArmorMasterwork" draft2))
  | Throw message => Throw message
  end.

(** [loadoutParameters] after "Default to saved loadout parameters, but
    allow URL to override them", for any value that [JSON.parse] returns:
    the assignment of the decoded value comes first, so that value stays
    when sanitizing throws. *)
Definition urlLoadoutParametersJson (loc : Location)
    (savedLoadoutParameters : option LoadoutParameters)
    : UrlParameters * list Effect :=
  match searchParams_get (search loc) "p" with
  | Some urlLoadoutParametersJSON =>
      if truthy_string (Some urlLoadoutParametersJSON) then
        match JSON_parse urlLoadoutParametersJSON with
        | Return raw =>
            match
              sanitizeJson
                (ownProperties raw ∪ encodeParameters defaultLoadoutParameters)
            with
            | Return clean => (SanitizedParameters clean, [])
            | Throw message =>
                (DecodedParameters raw, [badLoadoutShare t message])
            end
        | Throw message =>
            (SavedParameters savedLoadoutParameters,
             [badLoadoutShare t message])
        end
      else (SavedParameters savedLoadoutParameters, [])
  | None => (SavedParameters savedLoadoutParameters, [])
  end.

End ResolverJson.

(** [initialLoadout?.parameters?.query ?? ''] when the parameters are those
    of the [try] block. *)
Definition urlParametersQuery (parameters : UrlParameters) : Json :=
  match
    match parameters with
    | SavedParameters saved => JString <$> (saved ≫= query)
    | SanitizedParameters object => object !! "query"
    | DecodedParameters raw => getProperty raw "query"
    end
  with
  | None => JString ""
  | Some JNull => JString ""
  | Some q => q
  end.

(** [useSyncSearchQuery(query)] for that query. *)
Definition syncUrlParameters (parameters : UrlParameters)
    : list DispatchedJson :=
  if truthy (Some (urlParametersQuery parameters))
  then [setSearchQueryJson (urlParametersQuery parameters)]
  else [].

(** ** The hook around the reducer *)

(** The store whose class is that of the loadout, when the class is known. *)
Definition matchingStore (args : InitializerArgs) : option DimStore :=
  if negb (js_strict_eqb (lo_classType (initialLoadout args))
             (JsInt DestinyClass_Unknown))
  then List.find
         (fun store =>
            js_strict_eqb (JsInt (store_classType store))
              (lo_classType (initialLoadout args)))
         (stores args)
  else None.


Section Hook.

Variable t : string -> list (string * string) -> string.
Variable general : Z.
Variable getCurrentStore : list DimStore -> option DimStore.
Variable statOrderFromLoadoutParameters : LoadoutParameters -> list Z.
Variable statFiltersFromLoadoutParamaters : LoadoutParameters -> StatFilters.

(** [useLbState(args)], that is
    [useReducer(lbStateReducer(args.defs), args, lbStateInit)], as the state
    after the dispatch of [actions]. *)
Definition useLbState (args : InitializerArgs)
    (actions : list LoadoutBuilderAction) : Completion LoadoutBuilderState :=
  match
    lbStateInit getCurrentStore statOrderFromLoadoutParameters
      statFiltersFromLoadoutParamaters args
  with
  | Return state0 => Return (run t general (args_defs args) state0 actions)
  | Throw message => Throw message
  end.

End Hook.

(** ** The container of the page *)

(** What [useSyncSearchQuery] dispatches. *)
Inductive Dispatched : Type :=
  | setSearchQuery (query : string).

(** [useSyncSearchQuery(query)]: the effect of the first render. *)
Definition useSyncSearchQuery (query : string) : list Dispatched :=
  if truthy_string (Some query) then [setSearchQuery query] else [].

(** [initialLoadout?.parameters?.query ?? ''] in
    [LoadoutBuilderContainer]. *)
Definition containerQuery (initialLoadout : Loadout) : string :=
  nullish (lo_parameters initialLoadout ≫= query) "".

(** The earlier [useInitialLoadout], local to the file of
    [LoadoutBuilderContainer]: it returns the loadout alone, and the loadout
    of the navigation state as it is. The rest of its text is that of the
    later hook. *)
Module Container.

Section Container.

Variable t : string -> list (string * string) -> string.
Variable defaultLoadoutParameters : LoadoutParameters.
Variable parseLoadoutFromURLParam : string -> Completion (option Loadout).
Variable JSON_parse_subclass : string -> Completion (option SubclassParam).
Variable JSON_parse_parameters : string -> Completion LoadoutParameters.
Variable parseInt : string -> JsNumber.
Variable newLoadout : string -> list LoadoutItem -> JsNumber -> Loadout.

Definition useInitialLoadout (defs : option D2ManifestDefinitions)
    (loc : Location) (savedLoadoutParameters : option LoadoutParameters)
    (randomId : string) : Loadout * list Effect :=
  match state loc ≫= state_loadout with
  | Some preloadedLoadout => (preloadedLoadout, [])
  | None =>
      match sharedLoadout t parseLoadoutFromURLParam loc with
      | (Some parsedLoadout, shareEffects) => (parsedLoadout, shareEffects)
      | (None, shareEffects) =>
          let '(subclass, subclassEffects) :=
            urlSubclass t JSON_parse_subclass loc in
          let '(loadoutParameters, parameterEffects) :=
            urlLoadoutParameters t defaultLoadoutParameters
              JSON_parse_parameters loc savedLoadoutParameters in
          let classType := urlClassType parseInt defs loc loadoutParameters in
          (constructedLoadout newLoadout classType loadoutParameters
             (searchParams_get (search loc) "n") subclass randomId,
           shareEffects ++ subclassEffects ++ parameterEffects)
      end
  end.

End Container.

End Container.

(** The search query that [LoadoutBuilderContainer] synchronises on its
    first render, from the loadout that [useInitialLoadout] of
    [initial-loadout.ts] returns. *)
Definition containerSync (resolution : Resolution) : list Dispatched :=
  useSyncSearchQuery (containerQuery (resolved_loadout resolution)).

(** A dispatch of a string among the dispatches of any value. *)
Definition dispatchedJson (dispatched : Dispatched) : DispatchedJson :=
  match dispatched with
  | setSearchQuery query => setSearchQueryJson (JString query)
  end.

Section ContainerJson.

Variable t : string -> list (string * string) -> string.
Variable LockableBucketHashes : list Z.
Variable defaultLoadoutParameters : LoadoutParameters.
Variable parseLoadoutFromURLParam : string -> Completion (option Loadout).
Variable JSON_parse : string -> Completion Json.
Variable ToNumber : Json -> option JsonNumber.
Variable notIterableMessage : Json -> string.
Variable nullToObjectMessage : string.
Variable arrayDeleteMessage : option string.

(** What [LoadoutBuilderContainer] synchronises on its first render, with
    the [p] parameter as the value it is at run time: the query of the prior
    loadout, of the loadout of the share payload, or of the parameters of the
    loadout built from the URL. *)
Definition containerSyncJson (defs : option D2ManifestDefinitions)
    (loc : Location) (savedLoadoutParameters : option LoadoutParameters)
    : list DispatchedJson :=
  match priorLoadout loc with
  | Some (loadout, _) =>
      dispatchedJson
        <$> useSyncSearchQuery
              (containerQuery (preloaded LockableBucketHashes defs loadout))
  | None =>
      match fst (sharedLoadout t parseLoadoutFromURLParam loc) with
      | Some parsedLoadout =>
          dispatchedJson <$> useSyncSearchQuery (containerQuery parsedLoadout)
      | None =>
          syncUrlParameters
            (fst (urlLoadoutParametersJson t defaultLoadoutParameters
                    JSON_parse ToNumber notIterableMessage
                    nullToObjectMessage arrayDeleteMessage
                    loc savedLoadoutParameters))
      end
  end.

End ContainerJson.

(** ** Notions used to state the properties of the reducer *)

(** In slot [k] an item is pinned and at least one item is excluded. *)
Definition pinnedAndExcluded (s : LoadoutBuilderState) (k : Z) : Prop :=
  is_Some (prop (pinnedItems s) k)
  /\ exists l, prop (excludedItems s) k = Some l /\ l <> [].

(** No slot has both a pinned item and a non-empty exclusion list. *)
Definition pinExcludeInvariant (s : LoadoutBuilderState) : Prop :=
  forall k, ~ pinnedAndExcluded s k.

(** An item with the identifier of [item] is in the exclusion list of the
    slot of [item]. *)
Definition alreadyExcluded (s : LoadoutBuilderState) (item : DimItem) : Prop :=
  exists l, prop (excludedItems s) (bucket_hash (bucket item)) = Some l
            /\ In (item_id item) (map item_id l).

(** No exclusion list holds two items with the same identifier. *)
Definition excludedIdsDistinct (s : LoadoutBuilderState) : Prop :=
  forall k l, prop (excludedItems s) k = Some l -> List.NoDup (map item_id l).

(** ** Notions used to state the properties of the resolver *)

(** The query string without the parameters of one name. *)
Definition withoutParam (key : string) (search : list (string * string))
    : list (string * string) :=
  List.filter (fun kv => negb (String.eqb (fst kv) key)) search.

Definition withSearch (loc : Location) (s : list (string * string))
    : Location :=
  {| pathname := pathname loc; state := state loc; search := s |}.

(** The notifications among the effects, in order. *)
Definition notifications (es : list Effect) : list NotifyInput :=
  flat_map (fun e => match e with
                     | ShowNotification n => [n]
                     | Navigate _ _ => []
                     end) es.

(** The navigations among the effects, in order. *)
Definition navigations (es : list Effect) : list (string * bool) :=
  flat_map (fun e => match e with
                     | ShowNotification _ => []
                     | Navigate to replace => [(to, replace)]
                     end) es.

(** ** Concrete data for the examples *)

Module Samples.

(** A translation function that shows the key and the arguments. *)
Definition t (key : string) (args : list (string * string)) : string :=
  String.concat "|" (key :: map (fun kv => fst kv +:+ "=" +:+ snd kv) args).

Definition general : Z := 2487827355.
Definition helmet : Z := 3448274439.
Definition LockableBucketHashes : list Z := [helmet; 3551918588; 14239492].

Definition generalMod (hash : Z) (label : string)
    : DestinyInventoryItemDefinition :=
  {| def_hash := hash;
     displayProperties := {| name := label |};
     plug := Some {| plugCategoryHash := general |};
     equippingBlock := None;
     inventory := None;
     def_classType := 3 |}.

Definition exoticHelmet : DestinyInventoryItemDefinition :=
  {| def_hash := 100;
     displayProperties := {| name := "Exotic Helmet" |};
     plug := None;
     equippingBlock := Some {| uniqueLabel := Some "exotic.helmet" |};
     inventory := Some {| bucketTypeHash := helmet |};
     def_classType := 1 |}.

Definition m1 := generalMod 1 "Mod A".
Definition m2 := generalMod 2 "Mod B".
Definition m3 := generalMod 3 "Mod C".
Definition m4 := generalMod 4 "Mod D".
Definition m5 := generalMod 5 "Mod E".
Definition m6 := generalMod 6 "Mod F".
Definition m7 := generalMod 7 "Mod G".
Definition m8 := generalMod 8 "Mod H".
Definition m9 := generalMod 9 "Mod I".
Definition m10 := generalMod 10 "Mod J".

Definition defs : D2ManifestDefinitions :=
  {| InventoryItem :=
       list_to_map
         (map (fun d => (def_hash d, d))
            [m1; m2; m3; m4; m5; m6; m7; m8; m9; m10; exoticHelmet]) |}.

Definition parametersWithMods (l : list Z) : LoadoutParameters :=
  {| statConstraints := None; mods := Some l; query := None;
     assumeArmorMasterwork := None; lockArmorEnergyType := None;
     exoticArmorHash := None; otherParameters := ∅ |}.

Definition loadoutWith (p : option LoadoutParameters) : Loadout :=
  {| lo_id := "loadout-1"; lo_classType := JsInt 1; lo_name := "Sample";
     lo_items := []; lo_parameters := p; lo_notes := None |}.

Definition stateWith (l : Loadout) (p : PinnedItems) (e : ExcludedItems)
    : LoadoutBuilderState :=
  {| loadout := l; statOrder := []; statFilters := ∅;
     pinnedItems := p; excludedItems := e;
     selectedStoreId := Some "store-1";
     modPicker := {| open := false; plugCategoryHashWhitelist := None |};
     compareSet := None |}.

(** Three general mods are locked. *)
Definition threeMods : LoadoutBuilderState :=
  stateWith (loadoutWith (Some (parametersWithMods [1; 2; 3]))) ∅ ∅.

(** Six general mods are locked, as after
    [lockedModsChanged [m1; ...; m6]]. *)
Definition sixMods : LoadoutBuilderState :=
  stateWith (loadoutWith (Some (parametersWithMods [1; 2; 3; 4; 5; 6]))) ∅ ∅.

Definition sevenMods : list DestinyInventoryItemDefinition :=
  [m4; m5; m6; m7; m8; m9; m10].

Definition helmetA : DimItem :=
  {| item_id := "a"; item_hash := 11; bucket := {| bucket_hash := helmet |} |}.
Definition helmetB : DimItem :=
  {| item_id := "b"; item_hash := 12; bucket := {| bucket_hash := helmet |} |}.
Definition chestC : DimItem :=
  {| item_id := "c"; item_hash := 13; bucket := {| bucket_hash := 14239492 |} |}.

(** A helmet is excluded and a chest piece is pinned. *)
Definition busy : LoadoutBuilderState :=
  stateWith (loadoutWith None)
    {[ 14239492 := Some chestC ]} {[ helmet := Some [helmetA] ]}.

Definition store1 : DimStore :=
  {| store_id := "store-1"; store_classType := 1; current := true |}.

Definition getCurrentStore (l : list DimStore) : option DimStore :=
  List.find current l.

(** Parameters with stat constraints, and the arguments of the hook for a
    loadout that has them. *)
Definition constrainedParameters : LoadoutParameters :=
  {| statConstraints :=
       Some [ {| statHash := 100; minTier := None; maxTier := None |} ];
     mods := Some [1; 2; 3]; query := None;
     assumeArmorMasterwork := None; lockArmorEnergyType := None;
     exoticArmorHash := None; otherParameters := ∅ |}.

Definition initArgs : InitializerArgs :=
  {| args_defs := defs; stores := [store1];
     initialLoadout := loadoutWith (Some constrainedParameters);
     customStatsByClass := ∅; loStatOrderByClass := ∅ |}.

(** The arguments of the hook for a loadout without parameters. *)
Definition bareArgs : InitializerArgs :=
  {| args_defs := defs; stores := [store1];
     initialLoadout := loadoutWith None;
     customStatsByClass := ∅; loStatOrderByClass := ∅ |}.

Definition statOrderFromLoadoutParameters (p : LoadoutParameters) : list Z :=
  map statHash (nullish (statConstraints p) []).
Definition statFiltersFromLoadoutParamaters (p : LoadoutParameters)
    : StatFilters := ∅.
(** Decoders that accept one payload each. *)
Definition sharedParameters : LoadoutParameters :=
  {| statConstraints :=
       Some [ {| statHash := 100; minTier := Some 2; maxTier := Some 10 |} ];
     mods := Some [1; 2];
     query := Some (string_of_list_ascii (repeat "q"%char 3000));
     assumeArmorMasterwork := Some 3;
     lockArmorEnergyType := Some 2;
     exoticArmorHash := None;
     otherParameters := {[ "clearMods" := "true" ]} |}.

Definition defaultLoadoutParameters : LoadoutParameters :=
  {| statConstraints := None; mods := Some []; query := None;
     assumeArmorMasterwork := Some 1; lockArmorEnergyType := Some 1;
     exoticArmorHash := None; otherParameters := ∅ |}.

Definition savedLoadoutParameters : LoadoutParameters :=
  parametersWithMods [9].

Definition sharedLoadoutValue : Loadout :=
  {| lo_id := "shared"; lo_classType := JsInt 2; lo_name := "Shared";
     lo_items := []; lo_parameters := Some (parametersWithMods [7]);
     lo_notes := None |}.

Definition parseLoadoutFromURLParam (json : string)
    : Completion (option Loadout) :=
  if String.eqb json "shared" then Return (Some sharedLoadoutValue)
  else Throw "Unexpected token".

Definition JSON_parse_subclass (json : string)
    : Completion (option SubclassParam) :=
  if String.eqb json "subclass"
  then Return (Some {| subclass_hash := 77; subclass_socketOverrides := ∅ |})
  else Throw "Unexpected end of JSON input".

Definition JSON_parse_parameters (json : string)
    : Completion LoadoutParameters :=
  if String.eqb json "parameters" then Return sharedParameters
  else Throw "Unexpected end of JSON input".

Definition parseInt (s : string) : JsNumber :=
  if String.eqb s "0" then JsInt 0
  else if String.eqb s "1" then JsInt 1
  else if String.eqb s "2" then JsInt 2
  else JsNaN.

Definition newLoadout (label : string) (items : list LoadoutItem)
    (classType : JsNumber) : Loadout :=
  {| lo_id := "new"; lo_classType := classType; lo_name := label;
     lo_items := items; lo_parameters := None; lo_notes := None |}.

(** A prior loadout without parameters, and one whose query is long. *)
Definition bareLoadout : Loadout := loadoutWith None.
Definition priorLoadoutValue : Loadout := loadoutWith (Some sharedParameters).

Definition locationWith (st : option LocationState)
    (s : list (string * string)) : Location :=
  {| pathname := "/optimizer"; state := st; search := s |}.

Definition fromState (l : Loadout) : option LocationState :=
  Some {| state_loadout := Some l; state_storeId := Some "store-1" |}.

(** A prior loadout and a share payload that would decode. *)
Definition priorAndShare : Location :=
  locationWith (fromState priorLoadoutValue) [("l", "shared")].

(** A share payload that does not decode, with notes in the URL. *)
Definition brokenShare : Location :=
  locationWith None [("l", "garbage"); ("n", "hello")].

(** Neither the share payload nor the subclass decodes. *)
Definition brokenShareAndSubclass : Location :=
  locationWith None [("l", "garbage"); ("s", "{")].

(** A prior loadout that has no parameters, and no definitions loaded. *)
Definition bareState : Location := locationWith (fromState bareLoadout) [].

Definition parametersInUrl : Location :=
  locationWith None [("p", "parameters")].

Definition resolve (defs : option D2ManifestDefinitions) (loc : Location)
    (saved : option LoadoutParameters) : Resolution :=
  useInitialLoadout t LockableBucketHashes defaultLoadoutParameters
    parseLoadoutFromURLParam JSON_parse_subclass JSON_parse_parameters
    parseInt newLoadout defs loc saved "4711".

(** A decoder for which the payload "null" decodes to nothing. *)
Definition parseOrNull (json : string) : Completion (option Loadout) :=
  if String.eqb json "null" then Return None
  else parseLoadoutFromURLParam json.

Definition resolveOrNull (defs : option D2ManifestDefinitions)
    (loc : Location) (saved : option LoadoutParameters) : Resolution :=
  useInitialLoadout t LockableBucketHashes defaultLoadoutParameters
    parseOrNull JSON_parse_subclass JSON_parse_parameters
    parseInt newLoadout defs loc saved "4711".

Definition nullShare : Location :=
  locationWith None [("l", "null"); ("n", "hello")].

Definition emptyNotes : Location :=
  locationWith None [("n", ""); ("p", "parameters")].

Definition classInUrl : Location := locationWith None [("class", "2")].

Definition exoticParameters : LoadoutParameters :=
  {| statConstraints := None; mods := None; query := None;
     assumeArmorMasterwork := None; lockArmorEnergyType := None;
     exoticArmorHash := Some 100; otherParameters := ∅ |}.

(** A loadout with an exotic helmet that is equipped and a mod that is
    not. *)
Definition exoticLoadout : Loadout :=
  {| lo_id := "loadout-2"; lo_classType := JsInt 1; lo_name := "Exotic";
     lo_items :=
       [ {| li_id := "i1"; li_hash := 1; li_amount := 1; li_equip := false;
            li_socketOverrides := None |};
         {| li_id := "i2"; li_hash := 100; li_amount := 1; li_equip := true;
            li_socketOverrides := None |} ];
     lo_parameters := None; lo_notes := None |}.

Definition severalActions : list LoadoutBuilderAction :=
  [ addGeneralMods sevenMods; removeLockedMod m1;
    lockedModsChanged [m1; m2]; addGeneralMods sevenMods;
    pinItem helmetA; excludeItem helmetA; excludeItem helmetB ].

(** A decoder of share payloads for which the payload "long" is a loadout
    whose parameters hold a query of 3000 characters. *)
Definition parseLongShare (json : string) : Completion (option Loadout) :=
  if String.eqb json "long" then Return (Some priorLoadoutValue)
  else parseLoadoutFromURLParam json.

Definition resolveLongShare (defs : option D2ManifestDefinitions)
    (loc : Location) (saved : option LoadoutParameters) : Resolution :=
  useInitialLoadout t LockableBucketHashes defaultLoadoutParameters
    parseLongShare JSON_parse_subclass JSON_parse_parameters
    parseInt newLoadout defs loc saved "4711".

Definition longShare : Location := locationWith None [("l", "long")].

(** Two values that [JSON.parse] returns and that are not of the declared
    type: [{"statConstraints": 5, "query": "qqq..."}] and
    [{"mods": null, "lockArmorEnergyType": 2}]. *)
Definition misfitParameters : Json :=
  JObject
    {[ "statConstraints" := number 5;
       "query" := JString (string_of_list_ascii (repeat "q"%char 3000)) ]}.

Definition nullParameters : Json :=
  JObject {[ "mods" := JNull; "lockArmorEnergyType" := number 2 ]}.

Definition JSON_parse (json : string) : Completion Json :=
  if String.eqb json "parameters"
  then Return (JObject (encodeParameters sharedParameters))
  else if String.eqb json "misfit" then Return misfitParameters
  else if String.eqb json "nulls" then Return nullParameters
  else Throw "Unexpected end of JSON input".

(** [ToNumber] on the values that are not strings, arrays or objects. *)
Definition ToNumber (v : Json) : option JsonNumber :=
  match v with
  | JNull => Some (Finite (QArith_base.inject_Z 0))
  | JBool b => Some (Finite (QArith_base.inject_Z (if b then 1 else 0)))
  | JNumber n => Some n
  | _ => None
  end.

Definition notIterableMessage (_ : Json) : string :=
  "draft.statConstraints is not iterable".

Definition nullToObjectMessage : string :=
  "Cannot convert undefined or null to object".

Definition arrayDeleteMessage : option string := None.

Definition sanitizeObject (draft : gmap string Json)
    : Completion (gmap string Json) :=
  sanitizeJson ToNumber notIterableMessage nullToObjectMessage
    arrayDeleteMessage draft.

Definition parametersJson (loc : Location)
    (saved : option LoadoutParameters) : UrlParameters * list Effect :=
  urlLoadoutParametersJson t defaultLoadoutParameters JSON_parse ToNumber
    notIterableMessage nullToObjectMessage arrayDeleteMessage loc saved.

Definition synchronised (defs : option D2ManifestDefinitions)
    (loc : Location) (saved : option LoadoutParameters)
    : list DispatchedJson :=
  containerSyncJson t LockableBucketHashes defaultLoadoutParameters
    parseLoadoutFromURLParam JSON_parse ToNumber notIterableMessage
    nullToObjectMessage arrayDeleteMessage defs loc saved.

Definition misfitInUrl : Location := locationWith None [("p", "misfit")].

Definition nullsInUrl : Location := locationWith None [("p", "nulls")].

End Samples.

(** ** Reading properties of updated objects *)

Lemma prop_insert_eq {V : Type} (obj : gmap Z (option V)) k v :
  prop (<[k := v]> obj) k = v.
Proof. unfold prop. by rewrite lookup_insert_eq. Qed.

Lemma prop_insert_ne {V : Type} (obj : gmap Z (option V)) k k' v :
  k ≠ k' -> prop (<[k := v]> obj) k' = prop obj k'.
Proof. intros Hne. unfold prop. by rewrite lookup_insert_ne. Qed.

Lemma prop_empty {V : Type} k : prop (∅ : gmap Z (option V)) k = None.
Proof. unfold prop. by rewrite lookup_empty. Qed.

(** ** The loop of [addGeneralMods] *)

(** The loop accepts the mods of the action while there is room under the cap
    and reports all the later ones. *)
Lemma addGeneralMods_fold actionMods : forall acc,
  fold_left addGeneralMods_step actionMods acc =
  {| newMods :=
       newMods acc ++
       map def_hash (take (5 - currentGeneralModsCount acc) actionMods);
     currentGeneralModsCount :=
       currentGeneralModsCount acc +
       Nat.min (5 - currentGeneralModsCount acc) (length actionMods);
     failures :=
       failures acc ++
       map (fun m => name (displayProperties m))
         (drop (5 - currentGeneralModsCount acc) actionMods) |}.
Proof.
  induction actionMods as [|m rest IH]; intros [mods0 count0 failed0].
  - cbn [fold_left newMods currentGeneralModsCount failures length].
    rewrite take_nil, drop_nil, Nat.min_0_r, Nat.add_0_r. cbn [map].
    by rewrite !app_nil_r.
  - cbn [fold_left]. rewrite IH. unfold addGeneralMods_step.
    cbn [newMods currentGeneralModsCount failures].
    destruct (count0 <? 5)%nat eqn:Hroom.
    + apply Nat.ltb_lt in Hroom.
      cbn [newMods currentGeneralModsCount failures length].
      replace (5 - count0)%nat with (S (5 - S count0)) by lia.
      cbn [take drop map]. rewrite <- !app_assoc. cbn [app].
      f_equal. lia.
    + apply Nat.ltb_ge in Hroom.
      cbn [newMods currentGeneralModsCount failures length].
      replace (5 - count0)%nat with 0%nat by lia.
      cbn [take drop map Nat.min]. rewrite <- !app_assoc. cbn [app].
      by rewrite take_0, drop_0.
Qed.

(** ** Properties of the reducer *)

Lemma someSameId_In item l :
  someSameId item l = true <-> In (item_id item) (map item_id l).
Proof.
  unfold someSameId. rewrite existsb_exists, in_map_iff. split.
  - intros (i & Hi & Heq). apply String.eqb_eq in Heq. eauto.
  - intros (i & Heq & Hi). exists i. split; [done|]. by apply String.eqb_eq.
Qed.

Lemma filterOtherId_In item l i :
  In i (filterOtherId item l) <-> In i l /\ item_id i <> item_id item.
Proof.
  unfold filterOtherId. rewrite filter_In, negb_true_iff.
  by rewrite String.eqb_neq.
Qed.

Lemma pinExcludeInvariant_fields s s' :
  pinnedItems s' = pinnedItems s -> excludedItems s' = excludedItems s ->
  pinExcludeInvariant s -> pinExcludeInvariant s'.
Proof.
  intros Hp He Hinv k. unfold pinnedAndExcluded. rewrite Hp, He. apply Hinv.
Qed.

(** Projections of the states that the transitions build. *)
Tactic Notation "fields" "in" hyp(H) :=
  cbn [fst snd pinnedItems excludedItems with_pinnedItems with_excludedItems
       with_selectedStoreId] in H.

Section ReducerProperties.

Variable t : string -> list (string * string) -> string.
Variable general : Z.
Variable defs : D2ManifestDefinitions.

Local Abbreviation reduce := (lbStateReducer t general defs).
Local Abbreviation count := (generalModsCount general defs).

Lemma currentMods_merge state l :
  currentMods
    (mergeLoadoutParameters state
       {| patch_mods := Some (Some l);
          patch_assumeArmorMasterwork := None;
          patch_lockArmorEnergyType := None;
          patch_exoticArmorHash := None |}) = l.
Proof. reflexivity. Qed.

Lemma count_app l1 l2 : count (l1 ++ l2) = (count l1 + count l2)%nat.
Proof. unfold generalModsCount. by rewrite List.filter_app, length_app. Qed.

Lemma count_le_length l : (count l <= length l)%nat.
Proof. apply List.filter_length_le. Qed.

Lemma count_all_general l :
  Forall (fun m => isGeneralMod general defs m = true) l -> count l = length l.
Proof.
  unfold generalModsCount. induction 1 as [|m l Hm _ IH]; [done|].
  cbn [List.filter]. rewrite Hm. cbn [length]. by rewrite IH.
Qed.

(** What [addGeneralMods] returns, for every state. *)
Lemma addGeneralMods_result state actionMods :
  lbStateReducer t general defs state (addGeneralMods actionMods) =
  (mergeLoadoutParameters state
     {| patch_mods :=
          Some (Some (currentMods state ++
                      map def_hash
                        (take (5 - count (currentMods state)) actionMods)));
        patch_assumeArmorMasterwork := None;
        patch_lockArmorEnergyType := None;
        patch_exoticArmorHash := None |},
   unableToAddAllMods t
     (map (fun m => name (displayProperties m))
        (drop (5 - count (currentMods state)) actionMods))).
Proof.
  cbn [lbStateReducer]. unfold addGeneralMods_loop.
  rewrite addGeneralMods_fold. reflexivity.
Qed.

(** The general mods never grow beyond the larger of the cap and their
    number before the action. *)
Lemma addGeneralMods_bound state actionMods :
  (count (currentMods (fst (reduce state (addGeneralMods actionMods))))
   <= Nat.max 5 (count (currentMods state)))%nat.
Proof.
  rewrite addGeneralMods_result. cbn [fst]. rewrite currentMods_merge.
  rewrite count_app.
  pose proof (count_le_length
                (map def_hash
                   (take (5 - count (currentMods state)) actionMods))) as Hle.
  rewrite length_map, length_take in Hle. lia.
Qed.

(** C1 (as amended). The mods of the action are appended in order while
    fewer than 5 general mods are counted, the later ones are rejected and
    named in one warning, and the accepted ones are merged in all the same.
    A state that holds at most 5 general mods is taken to a state that holds
    at most 5; a state that holds 5 or more keeps its mods. With 3 general mods in the state and 7 general mods in the
    action, the first 2 are appended, the result holds 5, and the only
    notification lists the display names of the other 5. *)
Theorem addGeneralMods_cap state actionMods :
  let room := (5 - count (currentMods state))%nat in
  let result := reduce state (addGeneralMods actionMods) in
  currentMods (fst result) =
    currentMods state ++ map def_hash (take room actionMods)
  /\ snd result =
       unableToAddAllMods t
         (map (fun m => name (displayProperties m)) (drop room actionMods))
  /\ ((count (currentMods state) <= 5)%nat ->
      (count (currentMods (fst result)) <= 5)%nat)
  /\ ((5 <= count (currentMods state))%nat ->
      currentMods (fst result) = currentMods state)
  /\ (count (currentMods state) = 3%nat ->
      length actionMods = 7%nat ->
      Forall (fun m => isGeneralMod general defs (def_hash m) = true)
        actionMods ->
      exists a1 a2 r1 r2 r3 r4 r5,
        actionMods = [a1; a2; r1; r2; r3; r4; r5]
        /\ currentMods (fst result) =
             currentMods state ++ [def_hash a1; def_hash a2]
        /\ count (currentMods (fst result)) = 5%nat
        /\ snd result =
             [ {| notify_type := "warning";
                  notify_title := t "LoadoutBuilder.UnableToAddAllMods" [];
                  notify_body :=
                    t "LoadoutBuilder.UnableToAddAllModsBody"
                      [("mods",
                        String.concat ", "
                          [name (displayProperties r1);
                           name (displayProperties r2);
                           name (displayProperties r3);
                           name (displayProperties r4);
                           name (displayProperties r5)])] |} ]).
Proof.
  intros room result. subst room result.
  rewrite addGeneralMods_result. cbn [fst snd]. rewrite currentMods_merge.
  split; [done|]. split; [done|]. split; [|split].
  - intros Hcap.
    pose proof (addGeneralMods_bound state actionMods) as Hb.
    rewrite addGeneralMods_result in Hb. cbn [fst] in Hb.
    rewrite currentMods_merge in Hb. lia.
  - intros Hfull.
    replace (5 - count (currentMods state))%nat with 0%nat by lia.
    by rewrite take_0, app_nil_r.
  - intros Hthree Hseven Hgeneral. rewrite Hthree.
    destruct actionMods as [|a1 [|a2 [|r1 [|r2 [|r3 [|r4 [|r5 [|]]]]]]]];
      try discriminate Hseven.
    exists a1, a2, r1, r2, r3, r4, r5. cbn [take drop map Nat.sub].
    split; [done|]. split; [done|]. split; [|done].
    rewrite count_app, Hthree.
    apply Forall_cons in Hgeneral as [H1 Hgeneral].
    apply Forall_cons in Hgeneral as [H2 _].
    rewrite (count_all_general [def_hash a1; def_hash a2]); [done|].
    by repeat constructor.
Qed.

(** C9. Changing the selected character stores the given identifier and
    leaves both [pinnedItems] and [excludedItems] empty, whatever they held;
    nothing else changes and nothing is notified. *)
Theorem changeCharacter_clears state storeId :
  let result := reduce state (changeCharacter storeId) in
  selectedStoreId (fst result) = Some storeId
  /\ pinnedItems (fst result) = ∅
  /\ excludedItems (fst result) = ∅
  /\ (forall k, prop (pinnedItems (fst result)) k = None)
  /\ (forall k, prop (excludedItems (fst result)) k = None)
  /\ loadout (fst result) = loadout state
  /\ statOrder (fst result) = statOrder state
  /\ statFilters (fst result) = statFilters state
  /\ modPicker (fst result) = modPicker state
  /\ compareSet (fst result) = compareSet state
  /\ snd result = [].
Proof.
  cbn. repeat split; intros k; apply prop_empty.
Qed.

Lemma filterOtherId_distinct item l :
  List.NoDup (map item_id l) ->
  List.NoDup (map item_id (filterOtherId item l)).
Proof.
  induction l as [|i l IH]; [done|]. cbn [map filterOtherId List.filter].
  intros Hnodup. apply List.NoDup_cons_iff in Hnodup as [Hnew Hrest].
  fold (filterOtherId item l).
  destruct (negb _); [|by apply IH]. cbn [map].
  apply List.NoDup_cons; [|by apply IH].
  intros Hin. apply Hnew. apply in_map_iff in Hin as (j & Hid & Hj).
  apply filterOtherId_In in Hj as [Hj _]. apply in_map_iff. eauto.
Qed.

(** Every transition keeps the identifiers of each exclusion list
    distinct. *)
Lemma reducer_preserves_distinct state action :
  excludedIdsDistinct state ->
  excludedIdsDistinct (fst (reduce state action)).
Proof.
  intros Hdistinct.
  destruct action; try exact Hdistinct; cbn [lbStateReducer fst].
  - (* changeCharacter *)
    intros k l Hl. fields in Hl. by rewrite prop_empty in Hl.
  - (* pinItem *)
    intros k l Hl. fields in Hl.
    destruct (decide (bucket_hash (bucket item) = k)) as [<-|Hk].
    + by rewrite prop_insert_eq in Hl.
    + rewrite prop_insert_ne in Hl by done. by apply (Hdistinct k).
  - (* setPinnedItems *)
    intros k l Hl. fields in Hl. by rewrite prop_empty in Hl.
  - (* excludeItem *)
    destruct (prop (excludedItems state) (bucket_hash (bucket item)))
      as [old|] eqn:Hold; [destruct (someSameId item old) eqn:Hsome|];
      cbn [fst nullish]; [done| |].
    + intros k l Hl. fields in Hl.
      destruct (decide (bucket_hash (bucket item) = k)) as [<-|Hk].
      * rewrite prop_insert_eq in Hl. injection Hl as <-.
        rewrite map_app. cbn [map].
        apply NoDup_ListNoDup, NoDup_app. split_and!.
        -- apply NoDup_ListNoDup. by apply (Hdistinct _ _ Hold).
        -- intros x Hx Hx'. apply list_elem_of_In in Hx.
           apply list_elem_of_singleton in Hx'. subst x.
           apply someSameId_In in Hx. congruence.
        -- apply NoDup_singleton.
      * rewrite prop_insert_ne in Hl by done. by apply (Hdistinct k).
    + intros k l Hl. fields in Hl.
      destruct (decide (bucket_hash (bucket item) = k)) as [<-|Hk].
      * rewrite prop_insert_eq in Hl. injection Hl as <-.
        cbn [app map]. apply NoDup_ListNoDup, NoDup_singleton.
      * rewrite prop_insert_ne in Hl by done. by apply (Hdistinct k).
  - (* unexcludeItem *)
    intros k l Hl. fields in Hl.
    destruct (decide (bucket_hash (bucket item) = k)) as [<-|Hk].
    + rewrite prop_insert_eq in Hl.
      destruct (0 <? _)%nat; [|discriminate Hl]. injection Hl as <-.
      apply filterOtherId_distinct.
      destruct (prop (excludedItems state) (bucket_hash (bucket item)))
        as [old|] eqn:Hold; cbn [nullish].
      * by apply (Hdistinct _ _ Hold).
      * apply List.NoDup_nil.
    + rewrite prop_insert_ne in Hl by done. by apply (Hdistinct k).
Qed.

Lemma run_preserves_distinct actions : forall state,
  excludedIdsDistinct state ->
  excludedIdsDistinct (run t general defs state actions).
Proof.
  induction actions as [|a rest IH]; intros state Hdistinct; [done|].
  cbn [run fold_left]. apply IH. by apply reducer_preserves_distinct.
Qed.

(** C8. Un-excluding an item leaves in its slot the previous exclusion list
    without the entries that have the identifier of the item, in their
    order; when nothing remains, the slot reads as absent, never as an empty
    list (its key stays in the object, with the value [undefined]). *)
Theorem unexcludeItem_spec state item :
  let k := bucket_hash (bucket item) in
  let previous := nullish (prop (excludedItems state) k) [] in
  let remaining :=
    List.filter (fun i => negb (String.eqb (item_id i) (item_id item)))
      previous in
  let result := reduce state (unexcludeItem item) in
  prop (excludedItems (fst result)) k =
    match remaining with
    | [] => None
    | _ :: _ => Some remaining
    end
  /\ prop (excludedItems (fst result)) k <> Some []
  /\ excludedItems (fst result) !! k =
       Some match remaining with
            | [] => None
            | _ :: _ => Some remaining
            end
  /\ (forall i, In i remaining <->
                In i previous /\ item_id i <> item_id item)
  /\ pinnedItems (fst result) = pinnedItems state
  /\ snd result = [].
Proof.
  intros k previous remaining result. subst result.
  cbn [lbStateReducer fst snd]. cbn [with_excludedItems excludedItems pinnedItems].
  rewrite prop_insert_eq, lookup_insert_eq. fold k. fold previous.
  change (filterOtherId item previous) with remaining.
  split; [by destruct remaining|].
  split; [by destruct remaining|].
  split; [by destruct remaining|].
  split; [|done].
  intros i. apply filterOtherId_In.
Qed.

(** C7. Excluding an item whose identifier is already in the exclusion list
    of its slot returns the state as it is. Otherwise the slot has no pinned
    item any more and its exclusion list is the previous one with the item
    added at the end. Excluding the same item once more changes nothing.
    Lists without repeated identifiers stay so, and so no list ever has a
    repeated identifier in a state reached from one without exclusions. *)
Theorem excludeItem_spec state item :
  let k := bucket_hash (bucket item) in
  let result := reduce state (excludeItem item) in
  (alreadyExcluded state item -> result = (state, []))
  /\ (~ alreadyExcluded state item ->
      prop (pinnedItems (fst result)) k = None
      /\ prop (excludedItems (fst result)) k =
           Some (nullish (prop (excludedItems state) k) [] ++ [item])
      /\ snd result = [])
  /\ reduce (fst result) (excludeItem item) = (fst result, [])
  /\ (excludedIdsDistinct state -> excludedIdsDistinct (fst result))
  /\ (forall actions,
        excludedItems state = ∅ ->
        excludedIdsDistinct (run t general defs state actions)).
Proof.
  intros k result. subst result k.
  split; [|split; [|split; [|split]]].
  - intros (l & Hl & Hin). cbn [lbStateReducer]. rewrite Hl.
    apply someSameId_In in Hin. by rewrite Hin.
  - intros Hnot. cbn [lbStateReducer].
    destruct (prop (excludedItems state) (bucket_hash (bucket item)))
      as [l|] eqn:Hk; [destruct (someSameId item l) eqn:Hsome|].
    + exfalso. apply Hnot. exists l. split; [done|]. by apply someSameId_In.
    + cbn [fst snd pinnedItems excludedItems with_pinnedItems
             with_excludedItems].
      by rewrite !prop_insert_eq.
    + cbn [fst snd pinnedItems excludedItems with_pinnedItems
             with_excludedItems].
      by rewrite !prop_insert_eq.
  - cbn [lbStateReducer].
    destruct (prop (excludedItems state) (bucket_hash (bucket item)))
      as [l|] eqn:Hk; [destruct (someSameId item l) eqn:Hsome|];
      cbn [fst nullish excludedItems with_excludedItems].
    + by rewrite Hk, Hsome.
    + rewrite prop_insert_eq. unfold someSameId at 1.
      rewrite existsb_app. cbn [existsb].
      by rewrite String.eqb_refl, orb_true_r.
    + rewrite prop_insert_eq. cbn [app someSameId existsb].
      by rewrite String.eqb_refl.
  - apply reducer_preserves_distinct.
  - intros actions Hempty. apply run_preserves_distinct.
    intros k' l' Hl'. rewrite Hempty in Hl'. by rewrite prop_empty in Hl'.
Qed.

(** C10. A pin, unpin, exclude or unexclude of an item of slot [k] leaves
    the entries of [pinnedItems] and [excludedItems] of every other slot as
    they were, and does not touch [loadout], [statOrder], [statFilters],
    [selectedStoreId], [modPicker] and [compareSet]. *)
Theorem slot_actions_frame state action item :
  action = pinItem item \/ action = unpinItem item
  \/ action = excludeItem item \/ action = unexcludeItem item ->
  let result := fst (reduce state action) in
  (forall k', k' <> bucket_hash (bucket item) ->
     pinnedItems result !! k' = pinnedItems state !! k'
     /\ excludedItems result !! k' = excludedItems state !! k'
     /\ prop (pinnedItems result) k' = prop (pinnedItems state) k'
     /\ prop (excludedItems result) k' = prop (excludedItems state) k')
  /\ loadout result = loadout state
  /\ statOrder result = statOrder state
  /\ statFilters result = statFilters state
  /\ selectedStoreId result = selectedStoreId state
  /\ modPicker result = modPicker state
  /\ compareSet result = compareSet state.
Proof.
  intros Haction result. subst result.
  assert (Hframe : forall s' : LoadoutBuilderState,
    (s' = state
     \/ exists p e,
          s' = with_excludedItems (with_pinnedItems state p) e
          /\ (p = pinnedItems state
              \/ exists v, p = <[bucket_hash (bucket item) := v]>
                                 (pinnedItems state))
          /\ (e = excludedItems state
              \/ exists v, e = <[bucket_hash (bucket item) := v]>
                                 (excludedItems state))) ->
    (forall k', k' <> bucket_hash (bucket item) ->
       pinnedItems s' !! k' = pinnedItems state !! k'
       /\ excludedItems s' !! k' = excludedItems state !! k'
       /\ prop (pinnedItems s') k' = prop (pinnedItems state) k'
       /\ prop (excludedItems s') k' = prop (excludedItems state) k')
    /\ loadout s' = loadout state
    /\ statOrder s' = statOrder state
    /\ statFilters s' = statFilters state
    /\ selectedStoreId s' = selectedStoreId state
    /\ modPicker s' = modPicker state
    /\ compareSet s' = compareSet state).
  { intros s' [-> | (p & e & -> & Hp & He)]; [done|].
    cbn. split; [|done]. intros k' Hne.
    destruct Hp as [-> | [v ->]], He as [-> | [w ->]];
      rewrite ?prop_insert_ne, ?lookup_insert_ne by done; done. }
  apply Hframe.
  destruct Haction as [-> | [-> | [-> | ->]]]; cbn [lbStateReducer fst].
  - right. eexists _, _. split; [reflexivity|]. split; right; eauto.
  - right. exists (<[bucket_hash (bucket item) := None]> (pinnedItems state)),
      (excludedItems state).
    split; [by destruct state|]. split; [right; eauto | by left].
  - destruct (match prop (excludedItems state) (bucket_hash (bucket item))
              with Some l => someSameId item l | None => false end);
      cbn [fst]; [by left|].
    right. eexists _, _. split; [reflexivity|]. split; right; eauto.
  - right. eexists (pinnedItems state), _.
    split; [by destruct state|]. split; [by left | right; eauto].
Qed.

(** Every transition keeps pins and non-empty exclusion lists apart. *)
Lemma reducer_preserves_invariant state action :
  pinExcludeInvariant state ->
  pinExcludeInvariant (fst (reduce state action)).
Proof.
  intros Hinv.
  destruct action;
    try (apply (pinExcludeInvariant_fields state); [reflexivity..|exact Hinv]);
    cbn [lbStateReducer fst].
  - (* changeCharacter *)
    intros k [_ (l & Hl & _)]. fields in Hl. by rewrite prop_empty in Hl.
  - (* pinItem *)
    intros k [Hp (l & Hl & Hne)]. fields in Hp; fields in Hl.
    destruct (decide (bucket_hash (bucket item) = k)) as [<-|Hk].
    + by rewrite prop_insert_eq in Hl.
    + rewrite prop_insert_ne in Hp by done.
      rewrite prop_insert_ne in Hl by done.
      apply (Hinv k). split; eauto.
  - (* setPinnedItems *)
    intros k [_ (l & Hl & _)]. fields in Hl. by rewrite prop_empty in Hl.
  - (* unpinItem *)
    intros k [Hp (l & Hl & Hne)]. fields in Hp; fields in Hl.
    destruct (decide (bucket_hash (bucket item) = k)) as [<-|Hk].
    + rewrite prop_insert_eq in Hp. by destruct Hp.
    + rewrite prop_insert_ne in Hp by done. apply (Hinv k). split; eauto.
  - (* excludeItem *)
    destruct (match prop (excludedItems state) (bucket_hash (bucket item))
              with Some l => someSameId item l | None => false end);
      cbn [fst]; [done|].
    intros k [Hp (l & Hl & Hne)]. fields in Hp; fields in Hl.
    destruct (decide (bucket_hash (bucket item) = k)) as [<-|Hk].
    + rewrite prop_insert_eq in Hp. by destruct Hp.
    + rewrite prop_insert_ne in Hp by done.
      rewrite prop_insert_ne in Hl by done.
      apply (Hinv k). split; eauto.
  - (* unexcludeItem *)
    intros k [Hp (l & Hl & Hne)]. fields in Hp; fields in Hl.
    destruct (decide (bucket_hash (bucket item) = k)) as [<-|Hk].
    + rewrite prop_insert_eq in Hl.
      destruct (prop (excludedItems state) (bucket_hash (bucket item)))
        as [old|] eqn:Hold; cbn [nullish] in Hl.
      * destruct old as [|i old].
        -- fields in Hl. discriminate Hl.
        -- apply (Hinv (bucket_hash (bucket item))). split; [done|].
           exists (i :: old). by rewrite Hold.
      * fields in Hl. discriminate Hl.
    + rewrite prop_insert_ne in Hl by done. apply (Hinv k). split; eauto.
Qed.

Lemma run_preserves_invariant actions : forall state,
  pinExcludeInvariant state ->
  pinExcludeInvariant (run t general defs state actions).
Proof.
  induction actions as [|a rest IH]; intros state Hinv; [done|].
  cbn [run fold_left]. apply IH. by apply reducer_preserves_invariant.
Qed.

End ReducerProperties.

(** ** Properties of the initial state *)

Section InitProperties.

Variable t : string -> list (string * string) -> string.
Variable general : Z.
Variable defs : D2ManifestDefinitions.
Variable getCurrentStore : list DimStore -> option DimStore.
Variable statOrderFromLoadoutParameters : LoadoutParameters -> list Z.
Variable statFiltersFromLoadoutParamaters : LoadoutParameters -> StatFilters.

Local Abbreviation init :=
  (lbStateInit getCurrentStore statOrderFromLoadoutParameters
     statFiltersFromLoadoutParamaters).
Local Abbreviation reduce := (lbStateReducer t general defs).

Lemma lbStateInit_empty args state0 :
  init args = Return state0 ->
  pinnedItems state0 = ∅ /\ excludedItems state0 = ∅.
Proof.
  unfold lbStateInit. intros Hinit.
  repeat match type of Hinit with
         | context [match ?x with _ => _ end] => destruct x
         end;
    try discriminate Hinit; by injection Hinit as <-.
Qed.

(** [lbStateInit] returns a state as soon as there is a current store and
    the parameters of the loadout have stat constraints. *)
Lemma lbStateInit_returns args store parameters constraints :
  getCurrentStore (stores args) = Some store ->
  lo_parameters (initialLoadout args) = Some parameters ->
  statConstraints parameters = Some constraints ->
  exists state0, init args = Return state0.
Proof.
  intros Hcurrent Hparameters Hconstraints. unfold lbStateInit.
  rewrite Hparameters. cbn [nullish]. rewrite Hconstraints.
  destruct (if negb _ then _ else None) as [matching|];
    rewrite ?Hcurrent; eauto.
Qed.

(** C2. The initial state has no pinned and no excluded items, so no slot
    has both; every transition of the reducer keeps it so, hence also every
    sequence of transitions from the initial state. Pinning an item clears
    the exclusions of its slot, and excluding an item leaves its slot
    without pin. *)
Theorem pin_exclude_invariant args state0 actions :
  init args = Return state0 ->
  (pinnedItems state0 = ∅ /\ excludedItems state0 = ∅)
  /\ pinExcludeInvariant state0
  /\ pinExcludeInvariant (run t general defs state0 actions)
  /\ (forall state action,
        pinExcludeInvariant state ->
        pinExcludeInvariant (fst (reduce state action)))
  /\ (forall state item,
        prop (pinnedItems (fst (reduce state (pinItem item))))
          (bucket_hash (bucket item)) = Some item
        /\ prop (excludedItems (fst (reduce state (pinItem item))))
             (bucket_hash (bucket item)) = None)
  /\ (forall state item,
        pinExcludeInvariant state ->
        prop (pinnedItems (fst (reduce state (excludeItem item))))
          (bucket_hash (bucket item)) = None).
Proof.
  intros Hinit. destruct (lbStateInit_empty _ _ Hinit) as [Hp He].
  assert (Hinv0 : pinExcludeInvariant state0).
  { intros k [_ (l & Hl & _)]. rewrite He in Hl. by rewrite prop_empty in Hl. }
  split; [done|]. split; [done|].
  split; [by apply run_preserves_invariant|].
  split; [apply reducer_preserves_invariant|]. split.
  - intros state item. cbn [lbStateReducer fst].
    cbn [pinnedItems excludedItems with_pinnedItems with_excludedItems].
    by rewrite !prop_insert_eq.
  - intros state item Hinv. cbn [lbStateReducer].
    destruct (prop (excludedItems state) (bucket_hash (bucket item)))
      as [l|] eqn:Hk; [destruct (someSameId item l) eqn:Hsome|];
      cbn [fst pinnedItems with_pinnedItems with_excludedItems];
      rewrite ?prop_insert_eq; try done.
    destruct (prop (pinnedItems state) (bucket_hash (bucket item)))
      as [pinned|] eqn:Hpin; [|done].
    exfalso. apply (Hinv (bucket_hash (bucket item))). split.
    + by rewrite Hpin.
    + exists l. split; [done|]. intros ->. discriminate Hsome.
Qed.

End InitProperties.

(** ** Properties of the resolver *)

Lemma truthy_string_Some s : s <> "" -> truthy_string (Some s) = true.
Proof.
  intros Hne. unfold truthy_string. apply negb_true_iff.
  by apply String.eqb_neq.
Qed.

Lemma searchParams_get_withoutParam_ne search key key' :
  key <> key' ->
  searchParams_get (withoutParam key search) key' = searchParams_get search key'.
Proof.
  intros Hne. induction search as [|[k v] rest IH]; [done|].
  cbn [withoutParam List.filter fst searchParams_get].
  destruct (String.eqb k key) eqn:Hk; cbn [negb].
  - apply String.eqb_eq in Hk. subst k.
    apply String.eqb_neq in Hne. rewrite Hne. apply IH.
  - cbn [searchParams_get]. destruct (String.eqb k key'); [done|]. apply IH.
Qed.

Lemma searchParams_get_withoutParam_eq search key :
  searchParams_get (withoutParam key search) key = None.
Proof.
  induction search as [|[k v] rest IH]; [done|].
  cbn [withoutParam List.filter fst].
  destruct (String.eqb k key) eqn:Hk; cbn [negb]; [apply IH|].
  cbn [searchParams_get]. rewrite Hk. apply IH.
Qed.

(** Sanitizing keeps the stat constraints in place and removes their
    bounds. *)
Lemma stripTiers_lookup (l : list StatConstraint) i c :
  l !! i = Some c ->
  map stripTiers l !! i =
    Some {| statHash := statHash c; minTier := None; maxTier := None |}.
Proof. intros Hi. change (map stripTiers l) with (stripTiers <$> l). by rewrite list_lookup_fmap, Hi. Qed.

(** ** The [p] parameter: typed and untyped *)

Lemma lookup_setField key value (object : gmap string Json) key' :
  setField key value object !! key'
  = if decide (key = key') then value else object !! key'.
Proof.
  unfold setField. destruct value as [v|].
  - by rewrite lookup_insert.
  - by rewrite lookup_delete.
Qed.

Lemma inject_exceeds (n : nat) :
  numberExceeds2048 (Finite (QArith_base.inject_Z (Z.of_nat n)))
  = (2048 <? n)%nat.
Proof.
  unfold numberExceeds2048.
  destruct (2048 <? n)%nat eqn:Hn.
  - apply Nat.ltb_lt in Hn. apply negb_true_iff.
    destruct (QArith_base.Qle_bool _ _) eqn:Hq; [|done].
    apply QArith_base.Qle_bool_iff in Hq.
    rewrite <- QArith_base.Zle_Qle in Hq. lia.
  - apply Nat.ltb_ge in Hn. apply negb_false_iff.
    apply QArith_base.Qle_bool_iff. rewrite <- QArith_base.Zle_Qle. lia.
Qed.

(** The fields of the JSON value of typed parameters. *)
Lemma lookup_encodeParameters parameters key :
  encodeParameters parameters !! key
  = if decide ("statConstraints" = key)
    then (fun l => JArray (map encodeConstraint l))
           <$> statConstraints parameters
    else if decide ("mods" = key)
    then (fun l => JArray (map number l)) <$> mods parameters
    else if decide ("query" = key) then JString <$> query parameters
    else if decide ("assumeArmorMasterwork" = key)
    then number <$> assumeArmorMasterwork parameters
    else if decide ("lockArmorEnergyType" = key)
    then number <$> lockArmorEnergyType parameters
    else if decide ("exoticArmorHash" = key)
    then number <$> exoticArmorHash parameters
    else JString <$> otherParameters parameters !! key.
Proof.
  unfold encodeParameters. rewrite !lookup_setField.
  repeat case_decide; try done. by rewrite lookup_fmap.
Qed.

(** Laying typed parameters over typed defaults is the object spread of
    their JSON values. *)
Lemma encodeParameters_spread defaults parsed :
  encodeParameters parsed ∪ encodeParameters defaults
  = encodeParameters (spreadParameters defaults parsed).
Proof.
  apply map_eq. intros key.
  rewrite lookup_union, !lookup_encodeParameters.
  unfold spreadParameters.
  cbn [statConstraints mods query assumeArmorMasterwork lockArmorEnergyType
       exoticArmorHash otherParameters].
  repeat case_decide;
    try (by destruct (statConstraints parsed),
              (statConstraints defaults));
    try (by destruct (mods parsed), (mods defaults));
    try (by destruct (query parsed), (query defaults));
    try (by destruct (assumeArmorMasterwork parsed),
              (assumeArmorMasterwork defaults));
    try (by destruct (lockArmorEnergyType parsed),
              (lockArmorEnergyType defaults));
    try (by destruct (exoticArmorHash parsed),
              (exoticArmorHash defaults)).
  rewrite lookup_union.
  by destruct (otherParameters parsed !! key),
       (otherParameters defaults !! key).
Qed.

Section ResolverJsonProperties.

Variable t : string -> list (string * string) -> string.
Variable defaultLoadoutParameters : LoadoutParameters.
Variable JSON_parse : string -> Completion Json.
Variable ToNumber : Json -> option JsonNumber.
Variable notIterableMessage : Json -> string.
Variable nullToObjectMessage : string.
Variable arrayDeleteMessage : option string.

Local Abbreviation sanitizeObject :=
  (sanitizeJson ToNumber notIterableMessage nullToObjectMessage
     arrayDeleteMessage).
Local Abbreviation parametersJson :=
  (urlLoadoutParametersJson t defaultLoadoutParameters JSON_parse ToNumber
     notIterableMessage nullToObjectMessage arrayDeleteMessage).

Lemma deleteTiers_encodeConstraint constraint :
  deleteTiers nullToObjectMessage arrayDeleteMessage (encodeConstraint constraint)
  = Return (encodeConstraint (stripTiers constraint)).
Proof.
  unfold deleteTiers, encodeConstraint. f_equal. f_equal.
  apply map_eq. intros key. cbn [stripTiers minTier maxTier statHash].
  rewrite !lookup_delete, !lookup_setField.
  cbn [fmap option_fmap option_map].
  repeat case_decide; try done; congruence.
Qed.

Lemma deleteTiersEach_encode constraints :
  deleteTiersEach nullToObjectMessage arrayDeleteMessage
    (map encodeConstraint constraints)
  = Return (map encodeConstraint (map stripTiers constraints)).
Proof.
  induction constraints as [|c rest IH]; [done|].
  cbn [map deleteTiersEach].
  by rewrite deleteTiers_encodeConstraint, IH.
Qed.

(** The loop keeps the length of the array, takes the two bounds out of
    every element that is an object, and leaves the other elements. *)
Lemma deleteTiersEach_returns items : forall items',
  deleteTiersEach nullToObjectMessage arrayDeleteMessage items = Return items' ->
  length items' = length items
  /\ forall i element,
       items !! i = Some element ->
       refusesDelete arrayDeleteMessage element = false
       /\ items' !! i
          = Some match element with
                 | JObject properties =>
                     JObject (delete "minTier" (delete "maxTier" properties))
                 | other => other
                 end.
Proof.
  induction items as [|c rest IH]; intros items' Heach.
  - injection Heach as <-. by split.
  - cbn [deleteTiersEach] in Heach.
    destruct (deleteTiers nullToObjectMessage arrayDeleteMessage c) as [c'|] eqn:Hc;
      [|discriminate Heach].
    destruct (deleteTiersEach nullToObjectMessage arrayDeleteMessage rest)
      as [rest'|] eqn:Hrest;
      [|discriminate Heach].
    injection Heach as <-. destruct (IH rest' eq_refl) as [Hlength Hat].
    split; [cbn; by rewrite Hlength|].
    intros [|i] element Hi; cbn in Hi |- *; [|by apply Hat].
    injection Hi as <-. unfold deleteTiers in Hc. unfold refusesDelete.
    destruct c; try discriminate Hc;
      try (destruct arrayDeleteMessage; [discriminate Hc|]);
      by injection Hc as <-.
Qed.

(** The loop throws exactly when the array holds an element on which the
    [delete]s throw. *)
Lemma deleteTiersEach_throws items :
  (exists message,
     deleteTiersEach nullToObjectMessage arrayDeleteMessage items
     = Throw message)
  <-> exists element,
        In element items /\ refusesDelete arrayDeleteMessage element = true.
Proof.
  induction items as [|c rest IH]; cbn [deleteTiersEach In].
  - split; [by intros [? ?]|by intros (? & [] & _)].
  - assert (Hc : (refusesDelete arrayDeleteMessage c = true
                  /\ exists message,
                       deleteTiers nullToObjectMessage arrayDeleteMessage c
                       = Throw message)
                 \/ (refusesDelete arrayDeleteMessage c = false
                     /\ exists c',
                          deleteTiers nullToObjectMessage arrayDeleteMessage c
                          = Return c')).
    { unfold refusesDelete, deleteTiers.
      destruct c; try destruct arrayDeleteMessage; eauto. }
    destruct Hc as [[Hrefuses [message ->]]|[Hrefuses [c' ->]]].
    + split; [|by eauto]. intros _. exists c. split; [by left|done].
    + destruct (deleteTiersEach nullToObjectMessage arrayDeleteMessage rest)
        as [rest'|message] eqn:Hrest.
      * split; [by intros [? ?]|].
        intros (element & [<-|Hin] & Helement); [congruence|].
        destruct (proj2 IH) as [message Hmessage]; [by eauto|].
        discriminate Hmessage.
      * split; [|by eauto]. intros _.
        destruct (proj1 IH) as (element & Hin & Helement); [by eauto|].
        exists element. split; [by right|done].
Qed.

(** On parameters of the declared type, sanitizing the JSON value is
    sanitizing the parameters: it does not throw. *)
Lemma sanitizeJson_encodeParameters parameters :
  sanitizeObject (encodeParameters parameters)
  = Return (encodeParameters (sanitizeLoadoutParameters parameters)).
Proof.
  unfold sanitizeJson.
  assert (Hquery : encodeParameters parameters !! "query"
                   = JString <$> query parameters).
  { rewrite lookup_encodeParameters. by repeat case_decide. }
  rewrite Hquery.
  set (long := truthy_string (query parameters)
               && (2048 <? String.length (nullish (query parameters) ""))%nat).
  assert (Hlong :
    truthy (JString <$> query parameters)
    && exceeds2048 ToNumber
         ((JString <$> query parameters) ≫= fun q => getProperty q "length")
    = long).
  { subst long. destruct (query parameters) as [q|]; [|done].
    cbn [fmap option_fmap option_map mbind option_bind truthy truthy_string
         nullish getProperty exceeds2048].
    cbn [String.eqb Ascii.eqb Bool.eqb]. f_equal. unfold number.
    apply inject_exceeds. }
  rewrite Hlong.
  set (draft1 := if long then <["query" := JString ""]>
                                (encodeParameters parameters)
                 else encodeParameters parameters).
  assert (Hconstraints :
    draft1 !! "statConstraints"
    = (fun l => JArray (map encodeConstraint l))
        <$> statConstraints parameters).
  { subst draft1. destruct long.
    - rewrite lookup_insert_ne by done. rewrite lookup_encodeParameters.
      by repeat case_decide.
    - rewrite lookup_encodeParameters. by repeat case_decide. }
  rewrite Hconstraints.
  assert (Hresult : forall draft2,
    (forall key, draft2 !! key
                 = if decide ("statConstraints" = key)
                   then (fun l => JArray (map encodeConstraint
                                            (map stripTiers l)))
                          <$> statConstraints parameters
                   else draft1 !! key) ->
    delete "lockArmorEnergyType" (delete "assumeArmorMasterwork" draft2)
    = encodeParameters (sanitizeLoadoutParameters parameters)).
  { intros draft2 Hdraft2. apply map_eq. intros key.
    rewrite !lookup_delete, Hdraft2, lookup_encodeParameters.
    unfold sanitizeLoadoutParameters.
    cbn [statConstraints mods query assumeArmorMasterwork
         lockArmorEnergyType exoticArmorHash otherParameters].
    fold long. subst draft1.
    repeat case_decide; try congruence; subst;
      try (by destruct (statConstraints parameters));
      destruct long;
      rewrite ?lookup_insert_eq, ?lookup_insert_ne by done;
      rewrite ?lookup_encodeParameters;
      repeat case_decide; try congruence; try done. }
  destruct (statConstraints parameters) as [constraints|] eqn:Hsc;
    cbn [fmap option_fmap option_map truthy].
  - rewrite deleteTiersEach_encode. f_equal. apply Hresult.
    intros key. rewrite lookup_insert. by case_decide.
  - f_equal. apply Hresult. intros key. case_decide; [|done].
    subst key. by rewrite Hconstraints.
Qed.

(** When the [p] parameter decodes to the JSON value of parameters of the
    declared type, the variable holds the JSON value of what
    [urlLoadoutParameters] computes from these parameters, and nothing is
    notified. *)
Lemma urlLoadoutParameters_refines loc saved json parsed :
  searchParams_get (search loc) "p" = Some json -> json <> "" ->
  JSON_parse json = Return (JObject (encodeParameters parsed)) ->
  parametersJson loc saved
  = (SanitizedParameters
       (encodeParameters
          (sanitizeLoadoutParameters
             (spreadParameters defaultLoadoutParameters parsed))),
     [])
  /\ forall typedParse,
       typedParse json = Return parsed ->
       urlLoadoutParameters t defaultLoadoutParameters typedParse loc saved
       = (Some (sanitizeLoadoutParameters
                  (spreadParameters defaultLoadoutParameters parsed)),
          []).
Proof.
  intros Hget Hne Hparse. split.
  - unfold urlLoadoutParametersJson.
    rewrite Hget, truthy_string_Some, Hparse by done.
    cbn [ownProperties].
    by rewrite encodeParameters_spread, sanitizeJson_encodeParameters.
  - intros typedParse Htyped. unfold urlLoadoutParameters.
    by rewrite Hget, truthy_string_Some, Htyped.
Qed.

End ResolverJsonProperties.

Section ResolverProperties.

Variable t : string -> list (string * string) -> string.
Variable LockableBucketHashes : list Z.
Variable defaultLoadoutParameters : LoadoutParameters.
Variable parseLoadoutFromURLParam : string -> Completion (option Loadout).
Variable JSON_parse_subclass : string -> Completion (option SubclassParam).
Variable JSON_parse_parameters : string -> Completion LoadoutParameters.
Variable parseInt : string -> JsNumber.
Variable newLoadout : string -> list LoadoutItem -> JsNumber -> Loadout.

Local Abbreviation resolve :=
  (useInitialLoadout t LockableBucketHashes defaultLoadoutParameters
     parseLoadoutFromURLParam JSON_parse_subclass JSON_parse_parameters
     parseInt newLoadout).
Local Abbreviation preload := (preloaded LockableBucketHashes).
Local Abbreviation shared := (sharedLoadout t parseLoadoutFromURLParam).
Local Abbreviation subclassOf := (urlSubclass t JSON_parse_subclass).
Local Abbreviation parametersOf :=
  (urlLoadoutParameters t defaultLoadoutParameters JSON_parse_parameters).

(** The first branch changes nothing but, possibly, the locked exotic. *)
Lemma preloaded_frame defs loadout :
  lo_id (preload defs loadout) = lo_id loadout
  /\ lo_classType (preload defs loadout) = lo_classType loadout
  /\ lo_name (preload defs loadout) = lo_name loadout
  /\ lo_items (preload defs loadout) = lo_items loadout
  /\ lo_notes (preload defs loadout) = lo_notes loadout
  /\ lo_parameters (preload defs loadout) ≫= query
     = lo_parameters loadout ≫= query
  /\ lo_parameters (preload defs loadout) ≫= statConstraints
     = lo_parameters loadout ≫= statConstraints
  /\ lo_parameters (preload defs loadout) ≫= mods
     = lo_parameters loadout ≫= mods
  /\ lo_parameters (preload defs loadout) ≫= assumeArmorMasterwork
     = lo_parameters loadout ≫= assumeArmorMasterwork
  /\ lo_parameters (preload defs loadout) ≫= lockArmorEnergyType
     = lo_parameters loadout ≫= lockArmorEnergyType.
Proof.
  unfold preloaded. destruct defs as [defs|]; [|done].
  destruct (negb _); [|done].
  destruct (equippedExotic _ _ _); [|done].
  cbn. by destruct (lo_parameters loadout).
Qed.

Lemma preloaded_locked defs loadout :
  truthy_number (lo_parameters loadout ≫= exoticArmorHash) = true ->
  preload defs loadout = loadout.
Proof.
  intros Hlocked. unfold preloaded. destruct defs; [|done].
  by rewrite Hlocked.
Qed.

Lemma preloaded_parameters_present defs loadout :
  is_Some (lo_parameters (preload defs loadout)) <->
  is_Some (lo_parameters loadout)
  \/ exists d, defs = Some d
               /\ is_Some (equippedExotic LockableBucketHashes d
                             (lo_items loadout)).
Proof.
  unfold preloaded. destruct defs as [d|].
  - destruct (lo_parameters loadout) as [p|] eqn:Hp.
    + split; [by left; eauto|]. intros _.
      destruct (negb _); [|by rewrite Hp].
      destruct (equippedExotic _ _ _); [by cbn|by rewrite Hp].
    + cbn [mbind option_bind truthy_number negb].
      destruct (equippedExotic _ _ _) as [e|] eqn:He.
      * cbn. split; [|by eauto]. intros _. right. exists d. by rewrite He.
      * rewrite Hp. split.
        -- by intros [? ?].
        -- intros [[? ?]|(d' & Hd & [e He'])]; [done|].
           injection Hd as <-. congruence.
  - split; [by left|]. intros [H|(d & Hd & _)]; done.
Qed.

(** Without a prior loadout and without a decoded share payload, the
    loadout is built from the separate parameters. *)
Lemma resolve_constructed defs loc saved randomId :
  priorLoadout loc = None ->
  fst (shared loc) = None ->
  resolve defs loc saved randomId =
  {| resolved_loadout :=
       constructedLoadout newLoadout
         (urlClassType parseInt defs loc (fst (parametersOf loc saved)))
         (fst (parametersOf loc saved))
         (searchParams_get (search loc) "n")
         (fst (subclassOf loc)) randomId;
     resolved_storeId := None;
     effects :=
       snd (shared loc) ++ snd (subclassOf loc)
       ++ snd (parametersOf loc saved) |}.
Proof.
  intros Hprior Hshared. unfold useInitialLoadout. rewrite Hprior.
  destruct (shared loc) as [[parsed|] shareEffects]; [discriminate Hshared|].
  destruct (subclassOf loc) as [subclass subclassEffects].
  by destruct (parametersOf loc saved) as [parameters parameterEffects].
Qed.

(** A share payload that fails to decode is reported and removed from the
    URL, and no loadout comes from it. *)
Lemma shared_failure loc json message :
  searchParams_get (search loc) "l" = Some json -> json <> "" ->
  parseLoadoutFromURLParam json = Throw message ->
  shared loc =
  (None, [badLoadoutShare t message; Navigate (pathname loc) true]).
Proof.
  intros Hget Hne Hthrow. unfold sharedLoadout.
  by rewrite Hget, truthy_string_Some, Hthrow.
Qed.

(** Each of the two JSON parameters adds no effect, or one notification. *)
Lemma urlSubclass_effects loc :
  snd (subclassOf loc) = []
  \/ exists json message,
       searchParams_get (search loc) "s" = Some json
       /\ JSON_parse_subclass json = Throw message
       /\ snd (subclassOf loc) = [badLoadoutShare t message].
Proof.
  unfold urlSubclass.
  destruct (searchParams_get (search loc) "s") as [json|] eqn:Hget;
    [|by left].
  destruct (truthy_string (Some json)); [|by left].
  destruct (JSON_parse_subclass json) as [v|message] eqn:Hparse;
    [by left|].
  right. by exists json, message.
Qed.

Lemma urlLoadoutParameters_effects loc saved :
  snd (parametersOf loc saved) = []
  \/ exists json message,
       searchParams_get (search loc) "p" = Some json
       /\ JSON_parse_parameters json = Throw message
       /\ snd (parametersOf loc saved) = [badLoadoutShare t message].
Proof.
  unfold urlLoadoutParameters.
  destruct (searchParams_get (search loc) "p") as [json|] eqn:Hget;
    [|by left].
  destruct (truthy_string (Some json)); [|by left].
  destruct (JSON_parse_parameters json) as [v|message] eqn:Hparse;
    [by left|].
  right. by exists json, message.
Qed.

(** Removing the [l] parameter from the URL does not change what the third
    branch reads. *)
Lemma resolve_withoutParam defs loc saved randomId :
  priorLoadout loc = None ->
  resolve defs (withSearch loc (withoutParam "l" (search loc))) saved randomId
  = {| resolved_loadout :=
         constructedLoadout newLoadout
           (urlClassType parseInt defs loc (fst (parametersOf loc saved)))
           (fst (parametersOf loc saved))
           (searchParams_get (search loc) "n")
           (fst (subclassOf loc)) randomId;
       resolved_storeId := None;
       effects := snd (subclassOf loc) ++ snd (parametersOf loc saved) |}.
Proof.
  intros Hprior.
  set (loc' := withSearch loc (withoutParam "l" (search loc))).
  assert (Hget : forall key, "l" <> key ->
            searchParams_get (search loc') key
            = searchParams_get (search loc) key).
  { intros key Hkey. by apply searchParams_get_withoutParam_ne. }
  assert (Hshared : shared loc' = (None, [])).
  { unfold sharedLoadout. cbn [search loc' withSearch].
    by rewrite searchParams_get_withoutParam_eq. }
  assert (Hsub : subclassOf loc' = subclassOf loc).
  { unfold urlSubclass. by rewrite Hget. }
  assert (Hpar : parametersOf loc' saved = parametersOf loc saved).
  { unfold urlLoadoutParameters. by rewrite Hget. }
  assert (Hclass : forall p,
            urlClassType parseInt defs loc' p = urlClassType parseInt defs loc p).
  { intros p. unfold urlClassType. by rewrite Hget. }
  rewrite resolve_constructed.
  - rewrite Hshared, Hsub, Hpar, Hclass, Hget by done. done.
  - exact Hprior.
  - by rewrite Hshared.
Qed.

(** C3. With a loadout in the navigation state the resolver returns that
    loadout (with the equipped exotic filled in when it names none, and
    itself when it names one), with the store of the navigation state and
    without any effect; the query string, the decoders and the saved
    parameters play no part in it. Without a prior loadout, a share payload
    that decodes wins over the separate parameters and the saved ones. *)
Theorem prior_configuration_wins defs loc saved randomId loadout storeId :
  priorLoadout loc = Some (loadout, storeId) ->
  resolve defs loc saved randomId =
    {| resolved_loadout := preload defs loadout;
       resolved_storeId := storeId;
       effects := [] |}
  /\ (lo_id (preload defs loadout) = lo_id loadout
      /\ lo_classType (preload defs loadout) = lo_classType loadout
      /\ lo_name (preload defs loadout) = lo_name loadout
      /\ lo_items (preload defs loadout) = lo_items loadout
      /\ lo_notes (preload defs loadout) = lo_notes loadout)
  /\ (truthy_number (lo_parameters loadout ≫= exoticArmorHash) = true ->
      resolved_loadout (resolve defs loc saved randomId) = loadout)
  /\ (forall t' default' parse' parseSubclass' parseParameters' parseInt'
             newLoadout' search' saved' randomId',
        useInitialLoadout t' LockableBucketHashes default' parse'
          parseSubclass' parseParameters' parseInt' newLoadout'
          defs (withSearch loc search') saved' randomId'
        = resolve defs loc saved randomId)
  /\ (forall loc' json parsed,
        priorLoadout loc' = None ->
        searchParams_get (search loc') "l" = Some json -> json <> "" ->
        parseLoadoutFromURLParam json = Return (Some parsed) ->
        resolve defs loc' saved randomId =
          {| resolved_loadout := parsed;
             resolved_storeId := None;
             effects := [] |}).
Proof.
  intros Hprior.
  assert (Hresolve : forall t' default' parse' parseSubclass'
                            parseParameters' parseInt' newLoadout' search'
                            saved' randomId',
            useInitialLoadout t' LockableBucketHashes default' parse'
              parseSubclass' parseParameters' parseInt' newLoadout'
              defs (withSearch loc search') saved' randomId'
            = {| resolved_loadout := preload defs loadout;
                 resolved_storeId := storeId;
                 effects := [] |}).
  { intros. unfold useInitialLoadout.
    change (priorLoadout (withSearch loc search')) with (priorLoadout loc).
    by rewrite Hprior. }
  assert (Hhere : resolve defs loc saved randomId
                  = {| resolved_loadout := preload defs loadout;
                       resolved_storeId := storeId;
                       effects := [] |}).
  { unfold useInitialLoadout. by rewrite Hprior. }
  split; [exact Hhere|]. split.
  { pose proof (preloaded_frame defs loadout). tauto. }
  split.
  { intros Hlocked. rewrite Hhere. cbn [resolved_loadout].
    by apply preloaded_locked. }
  split.
  { intros. rewrite Hhere. apply Hresolve. }
  intros loc' json parsed Hnone Hget Hne Hparse.
  unfold useInitialLoadout, sharedLoadout.
  by rewrite Hnone, Hget, truthy_string_Some, Hparse.
Qed.



End ResolverProperties.

(** ** Further properties of the reducer *)

Lemma removeFirst_absent hash l : ~ In hash l -> removeFirst hash l = l.
Proof.
  induction l as [|x l IH]; [done|]. intros Hnot. cbn [removeFirst].
  destruct (Z.eqb x hash) eqn:Hx.
  - apply Z.eqb_eq in Hx. exfalso. apply Hnot. by left.
  - f_equal. apply IH. intros Hin. apply Hnot. by right.
Qed.

Lemma removeFirst_present hash l :
  In hash l ->
  exists before after,
    l = before ++ hash :: after /\ ~ In hash before
    /\ removeFirst hash l = before ++ after.
Proof.
  induction l as [|x l IH]; [done|]. intros Hin. cbn [removeFirst].
  destruct (Z.eqb x hash) eqn:Hx.
  - apply Z.eqb_eq in Hx. subst x. exists [], l.
    split; [done|]. split; [intros []|done].
  - apply Z.eqb_neq in Hx. destruct Hin as [Heq|Hin]; [done|].
    destruct (IH Hin) as (before & after & -> & Hnot & ->).
    exists (x :: before), after. split; [done|]. split; [|done].
    intros [Heq|Hb]; [done|]. by apply Hnot.
Qed.

Lemma removeFirst_snoc hash l :
  ~ In hash l -> removeFirst hash (l ++ [hash]) = l.
Proof.
  induction l as [|x l IH]; intros Hnot; cbn [app removeFirst].
  - by rewrite Z.eqb_refl.
  - destruct (Z.eqb x hash) eqn:Hx.
    + apply Z.eqb_eq in Hx. exfalso. apply Hnot. by left.
    + f_equal. apply IH. intros Hin. apply Hnot. by right.
Qed.

Lemma filterOtherId_snoc item l :
  someSameId item l = false -> filterOtherId item (l ++ [item]) = l.
Proof.
  unfold filterOtherId, someSameId. induction l as [|i l IH]; cbn.
  - by rewrite String.eqb_refl.
  - intros Hnone. apply orb_false_iff in Hnone as [Hi Hl].
    rewrite Hi. cbn. f_equal. by apply IH.
Qed.

(** The item pinned for a bucket by [_.keyBy] is the last one of the list
    that is in the bucket. *)
Lemma keyByBucket_fold items : forall acc k,
  prop (fold_left (fun acc i => <[bucket_hash (bucket i) := Some i]> acc)
          items acc) k
  = match List.find (fun i => Z.eqb (bucket_hash (bucket i)) k) (rev items) with
    | Some i => Some i
    | None => prop acc k
    end.
Proof.
  induction items as [|x items IH] using rev_ind; intros acc k; [done|].
  rewrite fold_left_app, rev_app_distr. cbn [fold_left rev app List.find].
  destruct (Z.eqb (bucket_hash (bucket x)) k) eqn:Hk.
  - apply Z.eqb_eq in Hk. subst k. apply prop_insert_eq.
  - apply Z.eqb_neq in Hk. rewrite prop_insert_ne by done. apply IH.
Qed.

Section ReducerFurther.

Variable t : string -> list (string * string) -> string.
Variable general : Z.
Variable defs : D2ManifestDefinitions.

Local Abbreviation reduce := (lbStateReducer t general defs).
Local Abbreviation count := (generalModsCount general defs).

(** X1. [removeLockedMod] takes out the first entry equal to the hash of the
    mod and nothing else: the entries before and after it keep their order,
    later copies stay, and a list without the hash is left as it is.
    Nothing is notified. *)
Theorem removeLockedMod_first state mod_ :
  let result := reduce state (removeLockedMod mod_) in
  (~ In (def_hash mod_) (currentMods state) ->
   currentMods (fst result) = currentMods state)
  /\ (In (def_hash mod_) (currentMods state) ->
      exists before after,
        currentMods state = before ++ def_hash mod_ :: after
        /\ ~ In (def_hash mod_) before
        /\ currentMods (fst result) = before ++ after)
  /\ (forall hash,
        count_occ Z.eq_dec (currentMods (fst result)) hash
        = if decide (hash = def_hash mod_)
          then Nat.pred (count_occ Z.eq_dec (currentMods state) hash)
          else count_occ Z.eq_dec (currentMods state) hash)
  /\ snd result = [].
Proof.
  intros result. subst result. cbn [lbStateReducer fst snd].
  rewrite currentMods_merge. split; [apply removeFirst_absent|].
  split; [apply removeFirst_present|]. split; [|done].
  intros hash. destruct (in_dec Z.eq_dec (def_hash mod_) (currentMods state))
    as [Hin|Hnot].
  - destruct (removeFirst_present _ _ Hin) as (before & after & -> & Hb & ->).
    rewrite !count_occ_app. cbn [count_occ].
    destruct (decide (hash = def_hash mod_)) as [->|Hne].
    + destruct (Z.eq_dec (def_hash mod_) (def_hash mod_)); [|done]. lia.
    + destruct (Z.eq_dec (def_hash mod_) hash); [congruence|done].
  - rewrite removeFirst_absent by done.
    destruct (decide (hash = def_hash mod_)) as [->|Hne]; [|done].
    apply (count_occ_not_In Z.eq_dec) in Hnot. by rewrite Hnot.
Qed.

(** X2. Adding one mod that is not yet locked, while there is room under the
    cap, and removing it again gives back the list of mods, without any
    notification. *)
Theorem addGeneralMods_removeLockedMod state mod_ :
  ~ In (def_hash mod_) (currentMods state) ->
  (count (currentMods state) < 5)%nat ->
  let added := reduce state (addGeneralMods [mod_]) in
  let removed := reduce (fst added) (removeLockedMod mod_) in
  currentMods (fst added) = currentMods state ++ [def_hash mod_]
  /\ currentMods (fst removed) = currentMods state
  /\ snd added = [] /\ snd removed = [].
Proof.
  intros Hnew Hroom added removed. subst added removed.
  rewrite addGeneralMods_result. cbn [fst snd lbStateReducer].
  rewrite !currentMods_merge.
  replace (5 - count (currentMods state))%nat
    with (S (4 - count (currentMods state))) by lia.
  cbn [take drop map unableToAddAllMods].
  rewrite take_nil, drop_nil. cbn [map].
  by rewrite removeFirst_snoc.
Qed.

(** X3. Adding the mods of two lists in one action, or the first list and
    then the second, locks the same mods, as long as the mods of the first
    list are general mods of the manifest; the mods rejected in one action
    are those rejected in the two. *)
Theorem addGeneralMods_app state first second :
  Forall (fun m => isGeneralMod general defs (def_hash m) = true) first ->
  let once := reduce state (addGeneralMods (first ++ second)) in
  let step1 := reduce state (addGeneralMods first) in
  let step2 := reduce (fst step1) (addGeneralMods second) in
  currentMods (fst once) = currentMods (fst step2)
  /\ drop (5 - count (currentMods state)) (first ++ second)
     = drop (5 - count (currentMods state)) first
       ++ drop (5 - count (currentMods (fst step1))) second.
Proof.
  intros Hgeneral once step1 step2. subst once step1 step2.
  rewrite !addGeneralMods_result. cbn [fst]. rewrite !currentMods_merge.
  set (c := count (currentMods state)).
  assert (Hcount1 :
    count (currentMods state ++ map def_hash (take (5 - c) first))
    = (c + Nat.min (5 - c) (length first))%nat).
  { rewrite count_app. fold c. f_equal.
    rewrite count_all_general.
    - by rewrite length_map, length_take.
    - apply Forall_map. by apply Forall_take. }
  rewrite Hcount1.
  assert (Hroom : (5 - (c + Nat.min (5 - c) (length first)))%nat
                  = (5 - c - length first)%nat) by lia.
  rewrite Hroom, take_app, drop_app, map_app, app_assoc. done.
Qed.

(** X4. What each action may change. The identity of the loadout, its class,
    name, items and notes are never changed. The selected store changes only
    with [changeCharacter], the stat order only with [sortOrderChanged], the
    stat filters only with [statFiltersChanged], the mod picker only when it
    is opened or closed, the compared set only when the drawer is opened or
    closed; pins and exclusions change only with the character and the
    actions on items; the parameters only with the seven actions that merge
    into them. *)
Theorem reducer_frame state action :
  let result := fst (lbStateReducer t general defs state action) in
  (lo_id (loadout result) = lo_id (loadout state)
   /\ lo_classType (loadout result) = lo_classType (loadout state)
   /\ lo_name (loadout result) = lo_name (loadout state)
   /\ lo_items (loadout result) = lo_items (loadout state)
   /\ lo_notes (loadout result) = lo_notes (loadout state))
  /\ (selectedStoreId result <> selectedStoreId state ->
      exists storeId, action = changeCharacter storeId)
  /\ (statOrder result <> statOrder state ->
      exists sortOrder, action = sortOrderChanged sortOrder)
  /\ (statFilters result <> statFilters state ->
      exists filters, action = statFiltersChanged filters)
  /\ (modPicker result <> modPicker state ->
      (exists whitelist, action = openModPicker whitelist)
      \/ action = closeModPicker)
  /\ (compareSet result <> compareSet state ->
      (exists set, action = openCompareDrawer set)
      \/ action = closeCompareDrawer)
  /\ (pinnedItems result <> pinnedItems state ->
      (exists storeId, action = changeCharacter storeId)
      \/ (exists items, action = setPinnedItems items)
      \/ exists item, action = pinItem item \/ action = unpinItem item
                      \/ action = excludeItem item)
  /\ (excludedItems result <> excludedItems state ->
      (exists storeId, action = changeCharacter storeId)
      \/ (exists items, action = setPinnedItems items)
      \/ exists item, action = pinItem item \/ action = excludeItem item
                      \/ action = unexcludeItem item)
  /\ (lo_parameters (loadout result) <> lo_parameters (loadout state) ->
      (exists lockedMods, action = lockedModsChanged lockedMods)
      \/ (exists mods, action = addGeneralMods mods)
      \/ (exists mod_, action = removeLockedMod mod_)
      \/ (exists value, action = assumeArmorMasterworkChanged value)
      \/ (exists value, action = lockArmorEnergyTypeChanged value)
      \/ (exists hash, action = lockExotic hash)
      \/ action = removeLockedExotic).
Proof.
  intros result. subst result.
  destruct action; cbn [lbStateReducer fst];
    try (destruct (match prop (excludedItems state) (bucket_hash (bucket item))
                   with Some l => someSameId item l | None => false end);
         cbn [fst]);
    (split; [done|]);
    repeat match goal with
           | |- _ /\ _ => split
           | |- _ -> _ => intros Hchanged
           end;
    try (exfalso; by apply Hchanged);
    eauto 10.
Qed.

(** X5. Only [addGeneralMods] notifies, and at most once: it shows one
    warning, which names the rejected mods, when the action brings more mods
    than there is room for under the cap, and nothing when it does not. *)
Theorem reducer_notifications state action :
  let shown := snd (reduce state action) in
  (length shown <= 1)%nat
  /\ Forall (fun n => notify_type n = "warning") shown
  /\ (shown <> [] ->
      exists mods,
        action = addGeneralMods mods
        /\ (5 - count (currentMods state) < length mods)%nat)
  /\ (forall mods,
        action = addGeneralMods mods ->
        (length mods <= 5 - count (currentMods state))%nat ->
        shown = [])
  /\ (forall mods,
        action = addGeneralMods mods ->
        (5 - count (currentMods state) < length mods)%nat ->
        shown =
          [ {| notify_type := "warning";
               notify_title := t "LoadoutBuilder.UnableToAddAllMods" [];
               notify_body :=
                 t "LoadoutBuilder.UnableToAddAllModsBody"
                   [("mods",
                     String.concat ", "
                       (map (fun m => name (displayProperties m))
                          (drop (5 - count (currentMods state)) mods)))] |} ]).
Proof.
  intros shown. subst shown.
  assert (Hadd : forall mods,
    let failed := map (fun m => name (displayProperties m))
                    (drop (5 - count (currentMods state)) mods) in
    (failed = [] <-> (length mods <= 5 - count (currentMods state))%nat)).
  { intros mods failed. subst failed. split.
    - intros Hnil. apply (f_equal length) in Hnil.
      rewrite length_map, length_drop in Hnil. cbn in Hnil. lia.
    - intros Hle. by rewrite drop_ge. }
  destruct action;
    try (cbn [lbStateReducer snd];
         try (destruct (match prop (excludedItems state)
                                (bucket_hash (bucket item))
                        with Some l => someSameId item l | None => false end);
              cbn [snd]);
         repeat split; (done || (cbn; lia) || by constructor)).
  rewrite addGeneralMods_result. cbn [snd].
  specialize (Hadd newGeneralMods). cbv zeta in Hadd.
  destruct (map _ (drop _ newGeneralMods)) as [|failed rest] eqn:Hfailed;
    cbn [unableToAddAllMods length].
  - repeat split; try (done || lia || by constructor).
    intros mods [= <-] Hmore. pose proof (proj1 Hadd eq_refl). lia.
  - split; [lia|]. split; [by repeat constructor|]. split; [|split].
    + intros _. exists newGeneralMods. split; [done|].
      destruct (decide (length newGeneralMods
                        <= 5 - count (currentMods state))%nat) as [Hle|]; [|lia].
      apply Hadd in Hle. discriminate Hle.
    + intros mods [= <-] Hle. apply Hadd in Hle. discriminate Hle.
    + intros mods [= <-] _. by rewrite Hfailed.
Qed.

End ReducerFurther.

Lemma count_removeFirst general defs hash l :
  (generalModsCount general defs (removeFirst hash l)
   <= generalModsCount general defs l)%nat.
Proof.
  unfold generalModsCount. induction l as [|x l IH]; [done|].
  cbn [removeFirst]. destruct (Z.eqb x hash).
  - cbn [List.filter]. destruct (isGeneralMod general defs x); cbn; lia.
  - cbn [List.filter]. destruct (isGeneralMod general defs x); cbn; lia.
Qed.

Section ReducerRuns.

Variable t : string -> list (string * string) -> string.
Variable general : Z.
Variable defs : D2ManifestDefinitions.

Local Abbreviation reduce := (lbStateReducer t general defs).
Local Abbreviation count := (generalModsCount general defs).

(** X6. Inside the parameters, no action touches the stat constraints, the
    query or the fields the reducer does not know. The mods change only with
    the three actions on mods, and each of the other three fields only with
    its own action, which stores the value it is given, [undefined]
    included. Parameters that are present are never taken away. *)
Theorem reducer_parameters_frame state action :
  let before := nullish (lo_parameters (loadout state)) emptyParameters in
  let result := fst (reduce state action) in
  let after := nullish (lo_parameters (loadout result)) emptyParameters in
  statConstraints after = statConstraints before
  /\ query after = query before
  /\ otherParameters after = otherParameters before
  /\ (mods after <> mods before ->
      (exists lockedMods, action = lockedModsChanged lockedMods)
      \/ (exists newMods, action = addGeneralMods newMods)
      \/ exists mod_, action = removeLockedMod mod_)
  /\ (assumeArmorMasterwork after <> assumeArmorMasterwork before ->
      exists value, action = assumeArmorMasterworkChanged value)
  /\ (lockArmorEnergyType after <> lockArmorEnergyType before ->
      exists value, action = lockArmorEnergyTypeChanged value)
  /\ (exoticArmorHash after <> exoticArmorHash before ->
      (exists hash, action = lockExotic hash) \/ action = removeLockedExotic)
  /\ (forall value, action = assumeArmorMasterworkChanged value ->
        assumeArmorMasterwork after = value)
  /\ (forall value, action = lockArmorEnergyTypeChanged value ->
        lockArmorEnergyType after = value)
  /\ (forall hash, action = lockExotic hash -> exoticArmorHash after = Some hash)
  /\ (action = removeLockedExotic -> exoticArmorHash after = None)
  /\ (is_Some (lo_parameters (loadout state)) ->
      is_Some (lo_parameters (loadout result))).
Proof.
  intros before result after. subst before result after.
  destruct action; cbn [lbStateReducer fst];
    try (destruct (match prop (excludedItems state) (bucket_hash (bucket item))
                   with Some l => someSameId item l | None => false end);
         cbn [fst]);
    cbn;
    repeat match goal with
           | |- _ /\ _ => split
           | |- _ -> _ => intros ?
           | |- forall _, _ => intros ?
           end;
    try done; try congruence; eauto 10.
Qed.

(** X7. [setPinnedItems] pins, in each bucket, the last item of the list
    that is in the bucket, leaves the buckets without item in the list
    without pin, and clears all exclusions. *)
Theorem setPinnedItems_last state items k :
  let result := fst (reduce state (setPinnedItems items)) in
  prop (pinnedItems result) k
    = List.find (fun i => Z.eqb (bucket_hash (bucket i)) k) (rev items)
  /\ (forall i, prop (pinnedItems result) k = Some i ->
        In i items /\ bucket_hash (bucket i) = k)
  /\ (prop (pinnedItems result) k = None <->
      forall i, In i items -> bucket_hash (bucket i) <> k)
  /\ excludedItems result = ∅.
Proof.
  intros result. subst result. cbn [lbStateReducer fst].
  cbn [pinnedItems excludedItems with_pinnedItems with_excludedItems].
  unfold keyByBucket. rewrite keyByBucket_fold, prop_empty.
  assert (Hfind : forall o : option DimItem,
            match o with Some i => Some i | None => None end = o)
    by (by intros []).
  rewrite Hfind. split; [done|]. split; [|split; [|done]].
  - intros i Hi. apply find_some in Hi as [Hin Hk].
    apply in_rev in Hin. by apply Z.eqb_eq in Hk.
  - split.
    + intros Hnone i Hin Hk.
      pose proof (find_none _ _ Hnone i) as Hi. cbv beta in Hi.
      rewrite <- in_rev in Hi. specialize (Hi Hin).
      apply Z.eqb_neq in Hi. done.
    + intros Hall.
      destruct (List.find _ (rev items)) as [i|] eqn:Hi; [|done].
      apply find_some in Hi as [Hin Hk]. apply in_rev in Hin.
      apply Z.eqb_eq in Hk. by destruct (Hall i Hin).
Qed.

(** X8. Excluding an item that is not excluded yet and un-excluding it gives
    back the exclusion list of its slot (absent when it was empty), leaves
    the other slots alone, and leaves the slot without pin: the pin that the
    exclusion removed does not come back. *)
Theorem excludeItem_unexcludeItem state item :
  ~ alreadyExcluded state item ->
  let k := bucket_hash (bucket item) in
  let excluded := fst (reduce state (excludeItem item)) in
  let back := fst (reduce excluded (unexcludeItem item)) in
  prop (excludedItems back) k
    = match prop (excludedItems state) k with
      | Some (first :: rest) => Some (first :: rest)
      | _ => None
      end
  /\ (forall k', k' <> k ->
        prop (excludedItems back) k' = prop (excludedItems state) k'
        /\ prop (pinnedItems back) k' = prop (pinnedItems state) k')
  /\ prop (pinnedItems back) k = None.
Proof.
  intros Hnot k excluded back. subst excluded back k.
  assert (Hsome :
    match prop (excludedItems state) (bucket_hash (bucket item)) with
    | Some l => someSameId item l
    | None => false
    end = false).
  { destruct (prop (excludedItems state) (bucket_hash (bucket item)))
      as [l|] eqn:Hl; [|done].
    destruct (someSameId item l) eqn:Hsame; [|done].
    exfalso. apply Hnot. exists l. split; [done|]. by apply someSameId_In. }
  cbn [lbStateReducer]. rewrite Hsome.
  cbn [fst pinnedItems excludedItems with_pinnedItems with_excludedItems].
  rewrite !prop_insert_eq. split; [|split].
  - destruct (prop (excludedItems state) (bucket_hash (bucket item)))
      as [l|]; cbn [nullish].
    + rewrite filterOtherId_snoc by done. by destruct l.
    + cbn [app filterOtherId List.filter]. rewrite String.eqb_refl. done.
  - intros k' Hk'. by rewrite !prop_insert_ne.
  - done.
Qed.

(** X9. After [excludeItem] an item with that identifier is in the exclusion
    list of its slot, whatever the state was; after [unexcludeItem] none
    is. *)
Theorem excluded_membership state item :
  alreadyExcluded (fst (reduce state (excludeItem item))) item
  /\ ~ alreadyExcluded (fst (reduce state (unexcludeItem item))) item.
Proof.
  split.
  - cbn [lbStateReducer].
    destruct (prop (excludedItems state) (bucket_hash (bucket item)))
      as [l|] eqn:Hl; [destruct (someSameId item l) eqn:Hsame|];
      cbn [fst nullish].
    + exists l. split; [done|]. by apply someSameId_In.
    + eexists. cbn [excludedItems with_excludedItems].
      rewrite prop_insert_eq. split; [done|].
      rewrite map_app. apply in_or_app. right. by left.
    + eexists. cbn [excludedItems with_excludedItems].
      rewrite prop_insert_eq. split; [done|]. by left.
  - intros (l & Hl & Hin). cbn [lbStateReducer fst] in Hl.
    cbn [excludedItems with_excludedItems] in Hl.
    rewrite prop_insert_eq in Hl.
    destruct (0 <? _)%nat; [|discriminate Hl]. injection Hl as <-.
    apply in_map_iff in Hin as (i & Hid & Hi).
    apply filterOtherId_In in Hi as [_ Hne]. done.
Qed.

(** The loadout keeps its identity in every transition. *)
Lemma reducer_loadout_identity state action :
  lo_id (loadout (fst (reduce state action))) = lo_id (loadout state)
  /\ lo_classType (loadout (fst (reduce state action)))
     = lo_classType (loadout state)
  /\ lo_name (loadout (fst (reduce state action))) = lo_name (loadout state)
  /\ lo_items (loadout (fst (reduce state action))) = lo_items (loadout state)
  /\ lo_notes (loadout (fst (reduce state action))) = lo_notes (loadout state).
Proof.
  destruct action; cbn [lbStateReducer fst]; try done.
  by destruct (match prop (excludedItems state) (bucket_hash (bucket item))
               with Some l => someSameId item l | None => false end).
Qed.

Lemma run_loadout_identity actions : forall state,
  lo_id (loadout (run t general defs state actions)) = lo_id (loadout state)
  /\ lo_classType (loadout (run t general defs state actions))
     = lo_classType (loadout state)
  /\ lo_name (loadout (run t general defs state actions))
     = lo_name (loadout state)
  /\ lo_items (loadout (run t general defs state actions))
     = lo_items (loadout state)
  /\ lo_notes (loadout (run t general defs state actions))
     = lo_notes (loadout state).
Proof.
  induction actions as [|a rest IH]; intros state; [done|].
  destruct (IH (fst (reduce state a))) as (H1 & H2 & H3 & H4 & H5).
  destruct (reducer_loadout_identity state a) as (G1 & G2 & G3 & G4 & G5).
  unfold run in *. cbn [fold_left]. repeat split; congruence.
Qed.

Lemma currentMods_merge_other state patch :
  patch_mods patch = None ->
  currentMods (mergeLoadoutParameters state patch) = currentMods state.
Proof.
  intros Hpatch. unfold currentMods, mergeLoadoutParameters. cbn.
  rewrite Hpatch. by destruct (lo_parameters (loadout state)).
Qed.

(** The mods of the state after one transition, when the cap holds before
    and [lockedModsChanged] brings no more than five general mods. *)
Lemma reducer_keeps_cap state action :
  (forall lockedMods, action = lockedModsChanged lockedMods ->
     (count (map def_hash lockedMods) <= 5)%nat) ->
  (count (currentMods state) <= 5)%nat ->
  (count (currentMods (fst (reduce state action))) <= 5)%nat.
Proof.
  intros Hlocked Hcap.
  destruct action;
    try (cbn [lbStateReducer fst];
         first [exact Hcap
               | rewrite currentMods_merge_other by done; exact Hcap]).
  - cbn [lbStateReducer].
    destruct (match prop (excludedItems state) (bucket_hash (bucket item))
              with Some l => someSameId item l | None => false end);
      exact Hcap.
  - cbn [lbStateReducer fst]. rewrite currentMods_merge. by apply Hlocked.
  - cbn [lbStateReducer fst]. rewrite currentMods_merge.
    etrans; [apply count_removeFirst|done].
  - pose proof (addGeneralMods_bound t general defs state newGeneralMods). lia.
Qed.

(** X10. Along every sequence of actions, the number of locked general mods
    stays within the cap of 5 when it is within the cap at the start and no
    [lockedModsChanged] brings more than 5 general mods. *)
Theorem run_keeps_cap actions : forall state,
  (forall lockedMods, In (lockedModsChanged lockedMods) actions ->
     (count (map def_hash lockedMods) <= 5)%nat) ->
  (count (currentMods state) <= 5)%nat ->
  (count (currentMods (run t general defs state actions)) <= 5)%nat.
Proof.
  induction actions as [|a rest IH]; intros state Hlocked Hcap; [done|].
  cbn [run fold_left]. apply IH.
  - intros lockedMods Hin. apply Hlocked. by right.
  - apply reducer_keeps_cap; [|done].
    intros lockedMods ->. apply Hlocked. by left.
Qed.

End ReducerRuns.

Section HookProperties.

Variable t : string -> list (string * string) -> string.
Variable general : Z.
Variable getCurrentStore : list DimStore -> option DimStore.
Variable statOrderFromLoadoutParameters : LoadoutParameters -> list Z.
Variable statFiltersFromLoadoutParamaters : LoadoutParameters -> StatFilters.

Local Abbreviation init :=
  (lbStateInit getCurrentStore statOrderFromLoadoutParameters
     statFiltersFromLoadoutParamaters).
Local Abbreviation hook :=
  (useLbState t general getCurrentStore statOrderFromLoadoutParameters
     statFiltersFromLoadoutParamaters).

(** X11. [lbStateInit] first looks for a store: the first store of the
    class of the loadout, even when another store is the current one, and
    the current store for a loadout of unknown class or of a class that is
    not a number; without either it throws a [TypeError]. With a store, it
    returns a state exactly when the parameters of the loadout have stat
    constraints, and throws a [ReferenceError] otherwise, because the other
    branch calls functions that the file does not define. The state it
    returns selects that store, holds the loadout it was given, a closed mod
    picker and no compared set, and takes its stat order and filters from
    the parameters of the loadout. *)
Theorem lbStateInit_store args :
  let parameters :=
    nullish (lo_parameters (initialLoadout args)) emptyParameters in
  (forall store,
     matchingStore args = Some store ->
     store_classType store <> DestinyClass_Unknown
     /\ lo_classType (initialLoadout args) = JsInt (store_classType store)
     /\ (is_Some (statConstraints parameters) ->
         exists state, init args = Return state
                       /\ selectedStoreId state = Some (store_id store)))
  /\ (forall store,
        matchingStore args = None ->
        getCurrentStore (stores args) = Some store ->
        is_Some (statConstraints parameters) ->
        exists state, init args = Return state
                      /\ selectedStoreId state = Some (store_id store))
  /\ (init args = Throw "TypeError" <->
      matchingStore args = None /\ getCurrentStore (stores args) = None)
  /\ (init args = Throw "ReferenceError" <->
      (is_Some (matchingStore args)
       \/ is_Some (getCurrentStore (stores args)))
      /\ statConstraints parameters = None)
  /\ (lo_classType (initialLoadout args) = JsNaN
      \/ lo_classType (initialLoadout args) = JsInt DestinyClass_Unknown ->
      matchingStore args = None)
  /\ (forall state, init args = Return state ->
        is_Some (statConstraints parameters)
        /\ loadout state = initialLoadout args
        /\ statOrder state = statOrderFromLoadoutParameters parameters
        /\ statFilters state = statFiltersFromLoadoutParamaters parameters
        /\ modPicker state
           = {| open := false; plugCategoryHashWhitelist := None |}
        /\ compareSet state = None).
Proof.
  intros parameters. unfold lbStateInit. fold (matchingStore args).
  fold parameters.
  split; [|split; [|split; [|split; [|split]]]].
  - intros store Hmatch. rewrite Hmatch.
    assert (Hclass : store_classType store <> DestinyClass_Unknown
                     /\ lo_classType (initialLoadout args)
                        = JsInt (store_classType store)).
    { unfold matchingStore in Hmatch.
      destruct (negb _) eqn:Hknown; [|done].
      apply find_some in Hmatch as [_ Heq].
      destruct (lo_classType (initialLoadout args)) as [c|]; [|done].
      cbn in Heq, Hknown. apply Z.eqb_eq in Heq. subst c.
      split; [|done]. apply negb_true_iff, Z.eqb_neq in Hknown. done. }
    destruct Hclass as [Hknown Hclass]. split; [done|]. split; [done|].
    intros [constraints ->]. by eexists.
  - intros store Hnone Hcurrent [constraints ->].
    rewrite Hnone, Hcurrent. by eexists.
  - destruct (matchingStore args) as [m|].
    + split; [|by intros [? _]].
      by destruct (statConstraints parameters).
    + destruct (getCurrentStore (stores args)) as [c|].
      * split; [|by intros [_ ?]].
        by destruct (statConstraints parameters).
      * done.
  - destruct (matchingStore args) as [m|].
    + destruct (statConstraints parameters) as [constraints|].
      * split; [done|by intros [_ ?]].
      * split; [|done]. intros _. split; [|done]. left. by eexists.
    + destruct (getCurrentStore (stores args)) as [c|].
      * destruct (statConstraints parameters) as [constraints|].
        -- split; [done|by intros [_ ?]].
        -- split; [|done]. intros _. split; [|done]. right. by eexists.
      * split; [done|]. by intros [[[? ?]|[? ?]] _].
  - unfold matchingStore. intros [->| ->].
    + cbn. by induction (stores args).
    + by cbn.
  - intros state Hinit.
    destruct (match matchingStore args with
              | Some store => Some store
              | None => getCurrentStore (stores args)
              end) as [store|]; [|discriminate Hinit].
    destruct (statConstraints parameters) as [constraints|];
      [|discriminate Hinit].
    injection Hinit as <-. by repeat split; [eexists|..].
Qed.

(** X12. Whatever is dispatched after [useLbState] has built its state, no
    slot has both a pin and exclusions, no exclusion list repeats an
    identifier, and the loadout is still the one given to the hook but for
    its parameters. *)
Theorem useLbState_invariants args actions state :
  hook args actions = Return state ->
  pinExcludeInvariant state
  /\ excludedIdsDistinct state
  /\ lo_id (loadout state) = lo_id (initialLoadout args)
  /\ lo_classType (loadout state) = lo_classType (initialLoadout args)
  /\ lo_name (loadout state) = lo_name (initialLoadout args)
  /\ lo_items (loadout state) = lo_items (initialLoadout args)
  /\ lo_notes (loadout state) = lo_notes (initialLoadout args).
Proof.
  unfold useLbState. intros Hhook.
  destruct (init args) as [state0|message] eqn:Hinit; [|discriminate Hhook].
  injection Hhook as <-.
  destruct (lbStateInit_empty _ _ _ _ _ Hinit) as [Hp He].
  split.
  { apply run_preserves_invariant. intros k [_ (l & Hl & _)].
    rewrite He in Hl. by rewrite prop_empty in Hl. }
  split.
  { apply run_preserves_distinct. intros k l Hl.
    rewrite He in Hl. by rewrite prop_empty in Hl. }
  assert (Hloadout : loadout state0 = initialLoadout args).
  { unfold lbStateInit in Hinit.
    destruct (match (if negb _ then _ else None) with
              | Some store => Some store
              | None => getCurrentStore (stores args)
              end); [|discriminate Hinit].
    destruct (statConstraints _); [|discriminate Hinit].
    by injection Hinit as <-. }
  rewrite <- Hloadout. apply run_loadout_identity.
Qed.

End HookProperties.

(** ** Further properties of the resolver *)

Lemma truthy_string_empty s : truthy_string (Some s) = false <-> s = "".
Proof.
  unfold truthy_string. rewrite negb_false_iff. apply String.eqb_eq.
Qed.

Lemma stripTiers_idempotent l :
  map stripTiers (map stripTiers l) = map stripTiers l.
Proof. rewrite map_map. by apply map_ext. Qed.

Lemma stripTiers_fixed l :
  map stripTiers l = l <->
  forall c, In c l -> minTier c = None /\ maxTier c = None.
Proof.
  induction l as [|c l IH]; [done|]. cbn [map]. split.
  - intros Heq. injection Heq as Hc Hl. intros c' [<-|Hin].
    + unfold stripTiers in Hc. destruct c as [h lo hi]. cbn in *.
      by injection Hc as <- <-.
    + by apply IH.
  - intros Hall. f_equal.
    + destruct (Hall c (or_introl eq_refl)) as [Hlo Hhi].
      destruct c as [h lo hi]. cbn in *. by subst.
    + apply IH. intros c' Hin. apply Hall. by right.
Qed.

(** X13. Sanitizing twice is sanitizing once, and the parameters that
    sanitizing leaves as they are, are those with a query of at most 2048
    characters, stat constraints without bounds, and neither
    [assumeArmorMasterwork] nor [lockArmorEnergyType]. *)
Theorem sanitize_idempotent parameters :
  sanitizeLoadoutParameters (sanitizeLoadoutParameters parameters)
  = sanitizeLoadoutParameters parameters
  /\ (sanitizeLoadoutParameters parameters = parameters <->
      (forall q, query parameters = Some q -> (String.length q <= 2048)%nat)
      /\ (forall l c, statConstraints parameters = Some l -> In c l ->
            minTier c = None /\ maxTier c = None)
      /\ assumeArmorMasterwork parameters = None
      /\ lockArmorEnergyType parameters = None).
Proof.
  destruct parameters as [constraints ms q assume lock exotic other].
  unfold sanitizeLoadoutParameters.
  cbn [query statConstraints mods assumeArmorMasterwork lockArmorEnergyType
       exoticArmorHash otherParameters].
  remember 2048%nat as limit eqn:Hlimit.
  assert (Hempty : (limit <? String.length "")%nat = false).
  { apply Nat.ltb_ge. cbn. lia. }
  split.
  - f_equal.
    + destruct constraints as [l|]; [|done]. cbn [fmap option_fmap option_map].
      by rewrite stripTiers_idempotent.
    + destruct q as [q|]; [|done]. cbn [nullish].
      destruct (truthy_string (Some q) && (limit <? String.length q)%nat)
        eqn:Hlong; cbn [nullish].
      * by rewrite Hempty, andb_false_r.
      * by rewrite Hlong.
  - split.
    + intros Heq. injection Heq as Hc Hq Ha Hl. subst assume lock.
      split; [|split; [|done]].
      * intros q' [= ->]. cbn [nullish] in Hq.
        destruct (limit <? String.length q')%nat eqn:Hlong.
        -- rewrite andb_true_r in Hq.
           destruct (truthy_string (Some q')) eqn:Htruthy.
           ++ injection Hq as <-. congruence.
           ++ apply truthy_string_empty in Htruthy. subst q'. cbn. lia.
        -- by apply Nat.ltb_ge in Hlong.
      * intros l c [= ->] Hin. cbn in Hc. injection Hc as Hc.
        by apply (proj1 (stripTiers_fixed l) Hc).
    + intros (Hq & Hc & -> & ->). f_equal.
      * destruct constraints as [l|]; [|done].
        cbn [fmap option_fmap option_map]. f_equal.
        apply stripTiers_fixed. intros c Hin. by apply (Hc l).
      * destruct q as [q|]; [|done]. cbn [nullish].
        specialize (Hq q eq_refl). apply Nat.ltb_ge in Hq.
        by rewrite Hq, andb_false_r.
Qed.

Section ResolverFurther.

Variable t : string -> list (string * string) -> string.
Variable LockableBucketHashes : list Z.
Variable defaultLoadoutParameters : LoadoutParameters.
Variable parseLoadoutFromURLParam : string -> Completion (option Loadout).
Variable JSON_parse_subclass : string -> Completion (option SubclassParam).
Variable JSON_parse_parameters : string -> Completion LoadoutParameters.
Variable parseInt : string -> JsNumber.
Variable newLoadout : string -> list LoadoutItem -> JsNumber -> Loadout.

Local Abbreviation resolve :=
  (useInitialLoadout t LockableBucketHashes defaultLoadoutParameters
     parseLoadoutFromURLParam JSON_parse_subclass JSON_parse_parameters
     parseInt newLoadout).
Local Abbreviation preload := (preloaded LockableBucketHashes).
Local Abbreviation shared := (sharedLoadout t parseLoadoutFromURLParam).
Local Abbreviation subclassOf := (urlSubclass t JSON_parse_subclass).
Local Abbreviation parametersOf :=
  (urlLoadoutParameters t defaultLoadoutParameters JSON_parse_parameters).

(** The four ways in which the branch of the share payload ends. *)
Lemma shared_cases loc :
  ((searchParams_get (search loc) "l" = None
    \/ searchParams_get (search loc) "l" = Some "")
   /\ shared loc = (None, []))
  \/ (exists json parsed,
        searchParams_get (search loc) "l" = Some json /\ json <> ""
        /\ parseLoadoutFromURLParam json = Return (Some parsed)
        /\ shared loc = (Some parsed, []))
  \/ (exists json,
        searchParams_get (search loc) "l" = Some json /\ json <> ""
        /\ parseLoadoutFromURLParam json = Return None
        /\ shared loc = (None, [Navigate (pathname loc) true]))
  \/ (exists json message,
        searchParams_get (search loc) "l" = Some json /\ json <> ""
        /\ parseLoadoutFromURLParam json = Throw message
        /\ shared loc
           = (None, [badLoadoutShare t message; Navigate (pathname loc) true])).
Proof.
  unfold sharedLoadout.
  destruct (searchParams_get (search loc) "l") as [json|]; [|by left; eauto].
  destruct (truthy_string (Some json)) eqn:Htruthy.
  - assert (json <> "") as Hne.
    { intros ->. discriminate Htruthy. }
    destruct (parseLoadoutFromURLParam json) as [[parsed|]|message] eqn:Hparse.
    + right. left. by exists json, parsed.
    + right. right. left. by exists json.
    + right. right. right. by exists json, message.
  - apply truthy_string_empty in Htruthy. subst json. left. eauto.
Qed.

(** X14. The resolver replaces the URL at most once, by the bare path, and
    exactly when there is no prior loadout and a non-empty share payload does
    not give a loadout. It shows at most three notifications, all of them
    errors, and does nothing at all when the URL has none of the three
    encoded parameters. *)
Theorem resolver_effects defs loc saved randomId :
  let es := effects (resolve defs loc saved randomId) in
  (navigations es = [] \/ navigations es = [(pathname loc, true)])
  /\ (navigations es <> [] <->
      priorLoadout loc = None
      /\ exists json,
           searchParams_get (search loc) "l" = Some json /\ json <> ""
           /\ forall parsed,
                parseLoadoutFromURLParam json <> Return (Some parsed))
  /\ Forall (fun n => notify_type n = "error") (notifications es)
  /\ (length (notifications es) <= 3)%nat
  /\ (searchParams_get (search loc) "l" = None ->
      searchParams_get (search loc) "s" = None ->
      searchParams_get (search loc) "p" = None ->
      es = []).
Proof.
  intros es. subst es.
  destruct (priorLoadout loc) as [[loadout storeId]|] eqn:Hprior.
  { unfold useInitialLoadout. rewrite Hprior. cbn.
    split; [by left|]. split; [|by repeat split; try lia].
    split; [done|]. by intros [? _]. }
  destruct (shared_cases loc)
    as [[Habsent Hs]
       |[(json & parsed & Hget & Hne & Hparse & Hs)
        |[(json & Hget & Hne & Hparse & Hs)
         |(json & message & Hget & Hne & Hparse & Hs)]]].
  - rewrite resolve_constructed by (try done; by rewrite Hs).
    rewrite Hs. cbn [effects snd app].
    destruct (urlSubclass_effects t JSON_parse_subclass loc)
      as [Hsub|(js & ms & Hgs & _ & Hsub)],
      (urlLoadoutParameters_effects t defaultLoadoutParameters
         JSON_parse_parameters loc saved)
        as [Hpar|(jp & mp & Hgp & _ & Hpar)];
      rewrite Hsub, Hpar; cbn;
      (split; [by left|]);
      (split; [split; [done|];
               intros (_ & json & Hget & Hne & _);
               destruct Habsent as [Ha|Ha]; rewrite Ha in Hget; congruence|]);
      (split; [by repeat constructor|]);
      (split; [lia|]); try done; intros; congruence.
  - unfold useInitialLoadout. rewrite Hprior, Hs. cbn.
    split; [by left|]. split.
    { split; [done|]. intros (_ & json' & Hget' & _ & Hnever).
      rewrite Hget in Hget'. injection Hget' as <-. by destruct (Hnever parsed). }
    split; [done|]. split; [lia|]. intros Hl. congruence.
  - rewrite resolve_constructed by (try done; by rewrite Hs).
    rewrite Hs. cbn [effects snd app].
    destruct (urlSubclass_effects t JSON_parse_subclass loc)
      as [Hsub|(js & ms & Hgs & _ & Hsub)],
      (urlLoadoutParameters_effects t defaultLoadoutParameters
         JSON_parse_parameters loc saved)
        as [Hpar|(jp & mp & Hgp & _ & Hpar)];
      rewrite Hsub, Hpar; cbn;
      (split; [by right|]);
      (split; [split; [intros _; split; [done|]; exists json;
                       split; [done|]; split; [done|];
                       intros parsed; congruence
                      |done]|]);
      (split; [by repeat constructor|]);
      (split; [lia|]); intros; congruence.
  - rewrite resolve_constructed by (try done; by rewrite Hs).
    rewrite Hs. cbn [effects snd app].
    destruct (urlSubclass_effects t JSON_parse_subclass loc)
      as [Hsub|(js & ms & Hgs & _ & Hsub)],
      (urlLoadoutParameters_effects t defaultLoadoutParameters
         JSON_parse_parameters loc saved)
        as [Hpar|(jp & mp & Hgp & _ & Hpar)];
      rewrite Hsub, Hpar; cbn;
      (split; [by right|]);
      (split; [split; [intros _; split; [done|]; exists json;
                       split; [done|]; split; [done|];
                       intros parsed; congruence
                      |done]|]);
      (split; [by repeat constructor|]);
      (split; [lia|]); intros; congruence.
Qed.

(** X15. A share payload that decodes to nothing is taken out of the URL
    without any notification, and the loadout is built from the separate
    parameters as if the payload had not been there. *)
Theorem share_decodes_to_nothing defs loc saved randomId json :
  priorLoadout loc = None ->
  searchParams_get (search loc) "l" = Some json -> json <> "" ->
  parseLoadoutFromURLParam json = Return None ->
  let result := resolve defs loc saved randomId in
  let fallback :=
    resolve defs (withSearch loc (withoutParam "l" (search loc)))
      saved randomId in
  effects result = Navigate (pathname loc) true :: effects fallback
  /\ notifications (effects result) = notifications (effects fallback)
  /\ resolved_loadout result = resolved_loadout fallback
  /\ resolved_storeId result = None.
Proof.
  intros Hprior Hget Hne Hparse result fallback. subst result fallback.
  assert (Hs : shared loc = (None, [Navigate (pathname loc) true])).
  { unfold sharedLoadout. by rewrite Hget, truthy_string_Some, Hparse. }
  rewrite (resolve_withoutParam t LockableBucketHashes) by done.
  rewrite resolve_constructed by (try done; by rewrite Hs).
  rewrite Hs. by cbn.
Qed.

(** X16. A URL parameter whose value is the empty string counts as absent,
    whichever parameter it is: the resolver returns the same loadout, store
    and effects as for the URL without it. *)
Theorem empty_parameter_ignored defs loc saved randomId key :
  searchParams_get (search loc) key = Some "" ->
  resolve defs (withSearch loc (withoutParam key (search loc))) saved randomId
  = resolve defs loc saved randomId.
Proof.
  intros Hempty.
  set (loc' := withSearch loc (withoutParam key (search loc))).
  assert (Hread : forall key',
    searchParams_get (search loc') key' = searchParams_get (search loc) key'
    \/ (searchParams_get (search loc) key' = Some ""
        /\ searchParams_get (search loc') key' = None)).
  { intros key'. destruct (decide (key = key')) as [<-|Hne].
    - right. split; [done|]. apply searchParams_get_withoutParam_eq.
    - left. by apply searchParams_get_withoutParam_ne. }
  assert (Hshared : shared loc' = shared loc).
  { unfold sharedLoadout. by destruct (Hread "l") as [->|[-> ->]]. }
  assert (Hsub : subclassOf loc' = subclassOf loc).
  { unfold urlSubclass. by destruct (Hread "s") as [->|[-> ->]]. }
  assert (Hpar : parametersOf loc' saved = parametersOf loc saved).
  { unfold urlLoadoutParameters. by destruct (Hread "p") as [->|[-> ->]]. }
  assert (Hclass : forall p,
            urlClassType parseInt defs loc' p = urlClassType parseInt defs loc p).
  { intros p. unfold urlClassType. by destruct (Hread "class") as [->|[-> ->]]. }
  assert (Hnotes : forall c p s,
            constructedLoadout newLoadout c p
              (searchParams_get (search loc') "n") s randomId
            = constructedLoadout newLoadout c p
                (searchParams_get (search loc) "n") s randomId).
  { intros c p s. unfold constructedLoadout.
    by destruct (Hread "n") as [->|[-> ->]]. }
  unfold useInitialLoadout.
  change (priorLoadout loc') with (priorLoadout loc).
  rewrite Hshared, Hsub, Hpar.
  destruct (priorLoadout loc) as [[? ?]|]; [done|].
  destruct (shared loc) as [[?|] ?]; [done|].
  destruct (subclassOf loc), (parametersOf loc saved).
  by rewrite Hclass, Hnotes.
Qed.

(** X17. A class given in the URL is used as parsed, [NaN] included, and
    the locked exotic is not consulted for it unless it parses to the
    unknown class. Without a class, the class is that of the definition of
    the locked exotic when the definitions are loaded and the hash is
    positive and known, and the unknown class otherwise. *)
Theorem urlClassType_cases defs loc parameters :
  let classParam := searchParams_get (search loc) "class" in
  let exotic := parameters ≫= exoticArmorHash in
  (forall s, classParam = Some s -> s <> "" ->
     parseInt s <> JsInt DestinyClass_Unknown ->
     urlClassType parseInt defs loc parameters = parseInt s)
  /\ (classParam = None \/ classParam = Some "" ->
      forall d hash definition,
        defs = Some d -> exotic = Some hash -> (0 < hash)%Z ->
        InventoryItem d !! hash = Some definition ->
        urlClassType parseInt defs loc parameters
        = JsInt (def_classType definition))
  /\ (classParam = None \/ classParam = Some "" ->
      defs = None \/ exotic = None
      \/ (exists hash, exotic = Some hash /\ (hash <= 0)%Z)
      \/ (exists d hash, defs = Some d /\ exotic = Some hash
                         /\ InventoryItem d !! hash = None) ->
      urlClassType parseInt defs loc parameters = JsInt DestinyClass_Unknown).
Proof.
  intros classParam exotic. subst classParam exotic. unfold urlClassType.
  split; [|split].
  - intros s -> Hne Hknown. rewrite truthy_string_Some by done.
    cbn [nullish]. destruct defs as [d|]; [|done].
    destruct (parseInt s) as [c|]; [|done]. cbn [js_strict_eqb].
    destruct (Z.eqb c DestinyClass_Unknown) eqn:Hc; [|done].
    apply Z.eqb_eq in Hc. congruence.
  - intros Hclass d hash definition -> Hexotic Hpositive Hdefinition.
    assert (truthy_string (searchParams_get (search loc) "class") = false)
      as -> by (by destruct Hclass as [-> | ->]).
    rewrite Hexotic. cbn [nullish js_strict_eqb truthy_number].
    rewrite Z.eqb_refl, Hdefinition.
    destruct (Z.eqb hash 0) eqn:Hzero; [apply Z.eqb_eq in Hzero; lia|].
    apply Z.ltb_lt in Hpositive. by rewrite Hpositive.
  - intros Hclass Hcases.
    assert (truthy_string (searchParams_get (search loc) "class") = false)
      as -> by (by destruct Hclass as [-> | ->]).
    destruct defs as [d|]; [|done]. cbn [js_strict_eqb].
    rewrite Z.eqb_refl.
    destruct Hcases as [?|[->|[(hash & -> & Hle)|(d' & hash & [= <-] & -> & Hnone)]]];
      [done|done| |].
    + cbn [nullish truthy_number].
      destruct (Z.ltb 0 hash) eqn:Hpos; [apply Z.ltb_lt in Hpos; lia|].
      by rewrite andb_false_r.
    + cbn [nullish truthy_number]. rewrite Hnone. cbn.
      by destruct (negb (Z.eqb hash 0) && Z.ltb 0 hash).
Qed.

(** X18. Filling in the equipped exotic is idempotent. The exotic that is
    filled in is the definition of an equipped item of the loadout, with a
    unique label and a lockable bucket; items that are not equipped are
    never looked at, and a loadout without such an item, or with a locked
    exotic already, comes back as it is. *)
Theorem preloaded_exotic defs loadout :
  preload defs (preload defs loadout) = preload defs loadout
  /\ (preload defs loadout <> loadout ->
      exists d li exotic,
        defs = Some d /\ In li (lo_items loadout) /\ li_equip li = true
        /\ InventoryItem d !! li_hash li = Some exotic
        /\ truthy_string (equippingBlock exotic ≫= uniqueLabel) = true
        /\ In (nullish (bucketTypeHash <$> inventory exotic) 0)
             LockableBucketHashes
        /\ truthy_number (lo_parameters loadout ≫= exoticArmorHash) = false
        /\ lo_parameters (preload defs loadout) ≫= exoticArmorHash
           = Some (def_hash exotic))
  /\ (forall d,
        defs = Some d ->
        (forall li, In li (lo_items loadout) -> li_equip li = true ->
           isLockableExotic LockableBucketHashes
             (InventoryItem d !! li_hash li) = false) ->
        preload defs loadout = loadout).
Proof.
  split; [|split].
  - unfold preloaded. destruct defs as [d|]; [|done].
    destruct (negb (truthy_number (lo_parameters loadout ≫= exoticArmorHash)))
      eqn:Hlocked; [|by rewrite Hlocked].
    destruct (equippedExotic LockableBucketHashes d (lo_items loadout))
      as [exotic|] eqn:Hexotic; [|by rewrite Hlocked, Hexotic].
    cbn [lo_items lo_parameters with_parameters]. rewrite Hexotic.
    match goal with
    | |- (if ?c then _ else _) = _ => destruct c; [|done]
    end.
    unfold with_parameters.
    cbn [lo_id lo_classType lo_name lo_items lo_notes lo_parameters].
    destruct (lo_parameters loadout); reflexivity.
  - intros Hchanged. unfold preloaded in *. destruct defs as [d|]; [|done].
    destruct (negb (truthy_number (lo_parameters loadout ≫= exoticArmorHash)))
      eqn:Hlocked; [|done].
    destruct (equippedExotic LockableBucketHashes d (lo_items loadout))
      as [exotic|] eqn:Hexotic; [|done].
    unfold equippedExotic in Hexotic.
    destruct (List.find _ _) as [[found|]|] eqn:Hfind; try discriminate Hexotic.
    cbn in Hexotic. injection Hexotic as ->.
    apply find_some in Hfind as [Hin Hlockable].
    apply in_map_iff in Hin as (li & Hlookup & Hli).
    apply filter_In in Hli as [Hli Hequip].
    cbn [isLockableExotic] in Hlockable.
    apply andb_true_iff in Hlockable as [Hlabel Hbucket].
    apply existsb_exists in Hbucket as (b & Hb & Heq).
    apply Z.eqb_eq in Heq. subst b.
    exists d, li, exotic. apply negb_true_iff in Hlocked.
    repeat split; done.
  - intros d -> Hnone. unfold preloaded.
    destruct (negb _); [|done].
    destruct (equippedExotic LockableBucketHashes d (lo_items loadout))
      as [exotic|] eqn:Hexotic; [|done].
    unfold equippedExotic in Hexotic.
    destruct (List.find _ _) as [[found|]|] eqn:Hfind; try discriminate Hexotic.
    apply find_some in Hfind as [Hin Hlockable].
    apply in_map_iff in Hin as (li & Hlookup & Hli).
    apply filter_In in Hli as [Hli Hequip].
    rewrite <- Hlookup, (Hnone li Hli Hequip) in Hlockable.
    discriminate Hlockable.
Qed.

(** X19. The earlier hook of the container file and the hook of
    [initial-loadout.ts] perform the same effects, and return the same
    loadout but for the equipped exotic that the later one fills into the
    loadout of the navigation state. *)
Theorem container_hook_agreement defs loc saved randomId :
  let earlier :=
    Container.useInitialLoadout t defaultLoadoutParameters
      parseLoadoutFromURLParam JSON_parse_subclass JSON_parse_parameters
      parseInt newLoadout defs loc saved randomId in
  let later := resolve defs loc saved randomId in
  snd earlier = effects later
  /\ resolved_loadout later
     = match priorLoadout loc with
       | Some _ => preload defs (fst earlier)
       | None => fst earlier
       end
  /\ (defs = None -> resolved_loadout later = fst earlier).
Proof.
  intros earlier later. subst earlier later.
  unfold Container.useInitialLoadout, useInitialLoadout, priorLoadout.
  destruct (state loc) as [st|]; cbn [mbind option_bind].
  - destruct (state_loadout st) as [loadout|]; cbn.
    + split; [done|]. split; [done|]. by intros ->.
    + destruct (shared loc) as [[parsed|] shareEffects]; [done|].
      destruct (subclassOf loc), (parametersOf loc saved). done.
  - destruct (shared loc) as [[parsed|] shareEffects]; [done|].
    destruct (subclassOf loc), (parametersOf loc saved). done.
Qed.

(** X22. Without a [p] parameter in the URL, or with one that does not
    decode, the parameters of the built loadout are the saved parameters as
    they are: they are not merged with the defaults and not sanitized. *)
Theorem saved_parameters_as_they_are defs loc saved randomId :
  priorLoadout loc = None -> fst (shared loc) = None ->
  searchParams_get (search loc) "p" = None
  \/ searchParams_get (search loc) "p" = Some ""
  \/ (exists json message,
        searchParams_get (search loc) "p" = Some json
        /\ JSON_parse_parameters json = Throw message) ->
  lo_parameters (resolved_loadout (resolve defs loc saved randomId)) = saved.
Proof.
  intros Hprior Hshared Hcases.
  rewrite resolve_constructed by done. cbn [resolved_loadout].
  unfold constructedLoadout. cbn [lo_parameters]. unfold urlLoadoutParameters.
  destruct Hcases as [->|[->|(json & message & -> & Hthrow)]]; [done|done|].
  rewrite Hthrow. by destruct (truthy_string (Some json)).
Qed.

End ResolverFurther.

(** ** Sanitizing, and the [p] parameter, on any decoded value *)

Section ResolverJsonFurther.

Variable t : string -> list (string * string) -> string.
Variable LockableBucketHashes : list Z.
Variable defaultLoadoutParameters : LoadoutParameters.
Variable parseLoadoutFromURLParam : string -> Completion (option Loadout).
Variable JSON_parse_subclass : string -> Completion (option SubclassParam).
Variable JSON_parse_parameters : string -> Completion LoadoutParameters.
Variable parseInt : string -> JsNumber.
Variable newLoadout : string -> list LoadoutItem -> JsNumber -> Loadout.
Variable JSON_parse : string -> Completion Json.
Variable ToNumber : Json -> option JsonNumber.
Variable notIterableMessage : Json -> string.
Variable nullToObjectMessage : string.
Variable arrayDeleteMessage : option string.

Local Abbreviation resolve :=
  (useInitialLoadout t LockableBucketHashes defaultLoadoutParameters
     parseLoadoutFromURLParam JSON_parse_subclass JSON_parse_parameters
     parseInt newLoadout).
Local Abbreviation shared := (sharedLoadout t parseLoadoutFromURLParam).
Local Abbreviation sanitizeObject :=
  (sanitizeJson ToNumber notIterableMessage nullToObjectMessage
     arrayDeleteMessage).
Local Abbreviation parametersJson :=
  (urlLoadoutParametersJson t defaultLoadoutParameters JSON_parse ToNumber
     notIterableMessage nullToObjectMessage arrayDeleteMessage).

(** What sanitizing returns, when it returns. *)
Lemma sanitizeJson_returns draft result :
  sanitizeObject draft = Return result ->
  result !! "query"
    = (if truthy (draft !! "query")
          && exceeds2048 ToNumber
               (draft !! "query" ≫= fun q => getProperty q "length")
       then Some (JString "")
       else draft !! "query")
  /\ result !! "assumeArmorMasterwork" = None
  /\ result !! "lockArmorEnergyType" = None
  /\ (forall key,
        key <> "query" -> key <> "statConstraints" ->
        key <> "assumeArmorMasterwork" -> key <> "lockArmorEnergyType" ->
        result !! key = draft !! key)
  /\ (forall items,
        draft !! "statConstraints" = Some (JArray items) ->
        exists items',
          result !! "statConstraints" = Some (JArray items')
          /\ length items' = length items
          /\ forall i element,
               items !! i = Some element ->
               refusesDelete arrayDeleteMessage element = false
               /\ items' !! i
                  = Some match element with
                         | JObject properties =>
                             JObject (delete "minTier"
                                        (delete "maxTier" properties))
                         | other => other
                         end)
  /\ ((forall items, draft !! "statConstraints" <> Some (JArray items)) ->
      result !! "statConstraints" = draft !! "statConstraints").
Proof.
  unfold sanitizeJson.
  set (long := truthy (draft !! "query") && exceeds2048 ToNumber _).
  set (draft1 := if long then <["query" := JString ""]> draft else draft).
  assert (Hquery : draft1 !! "query"
                   = if long then Some (JString "") else draft !! "query").
  { subst draft1. destruct long; [by rewrite lookup_insert_eq|done]. }
  assert (Hother : forall key, key <> "query" -> draft1 !! key = draft !! key).
  { intros key Hkey. subst draft1. destruct long; [|done].
    by rewrite lookup_insert_ne. }
  rewrite (Hother "statConstraints") by done.
  intros Hreturn.
  assert (Hcases :
    exists draft2,
      result = delete "lockArmorEnergyType"
                 (delete "assumeArmorMasterwork" draft2)
      /\ ((draft2 = draft1
           /\ forall items, draft !! "statConstraints" <> Some (JArray items))
          \/ exists items items',
               draft !! "statConstraints" = Some (JArray items)
               /\ deleteTiersEach nullToObjectMessage arrayDeleteMessage items
                  = Return items'
               /\ draft2 = <["statConstraints" := JArray items']> draft1)).
  { destruct (draft !! "statConstraints") as [value|] eqn:Hsc.
    2: { injection Hreturn as <-. eexists. split; [reflexivity|].
         left. by split. }
    destruct (truthy (Some value)) eqn:Htruthy.
    2: { injection Hreturn as <-. eexists. split; [reflexivity|].
         left. split; [reflexivity|]. intros items [= ->].
         discriminate Htruthy. }
    destruct value as [| | | |items|]; try discriminate Hreturn.
    - injection Hreturn as <-. eexists. split; [reflexivity|].
      left. by split.
    - destruct (deleteTiersEach nullToObjectMessage arrayDeleteMessage items) as [items'|]
        eqn:Heach; [|discriminate Hreturn].
      injection Hreturn as <-. eexists. split; [reflexivity|].
      right. by exists items, items'. }
  destruct Hcases as (draft2 & -> & Hdraft2).
  assert (Hkeep : forall key, key <> "statConstraints" ->
                    draft2 !! key = draft1 !! key).
  { intros key Hkey.
    destruct Hdraft2 as [[-> _]|(items & items' & _ & _ & ->)]; [done|].
    by rewrite lookup_insert_ne. }
  split.
  { rewrite !lookup_delete_ne by done. by rewrite Hkeep, Hquery. }
  split.
  { rewrite lookup_delete_ne by done. by rewrite lookup_delete_eq. }
  split; [by rewrite lookup_delete_eq|]. split.
  { intros key H1 H2 H3 H4. rewrite !lookup_delete_ne by done.
    rewrite Hkeep by done. by apply Hother. }
  split.
  - intros items Hitems. rewrite !lookup_delete_ne by done.
    destruct Hdraft2 as [[_ Hnot]|(items0 & items' & Hsc & Heach & ->)].
    + by destruct (Hnot items).
    + rewrite Hitems in Hsc. injection Hsc as <-.
      exists items'. rewrite lookup_insert_eq. split; [done|].
      by apply (deleteTiersEach_returns nullToObjectMessage arrayDeleteMessage).
  - intros Hnot. rewrite !lookup_delete_ne by done.
    destruct Hdraft2 as [[-> _]|(items & items' & Hsc & _ & _)].
    + by apply Hother.
    + by destruct (Hnot items).
Qed.

(** Sanitizing throws exactly when [statConstraints] is truthy and is not
    iterable, or is an array with an element on which the [delete]s
    throw. *)
Lemma sanitizeJson_throws draft :
  (exists message, sanitizeObject draft = Throw message)
  <-> truthy (draft !! "statConstraints") = true
      /\ match draft !! "statConstraints" with
         | Some (JArray items) =>
             exists element,
               In element items
               /\ refusesDelete arrayDeleteMessage element = true
         | Some (JString _) => False
         | _ => True
         end.
Proof.
  unfold sanitizeJson.
  set (long := truthy (draft !! "query") && exceeds2048 ToNumber _).
  assert (Hsc : (if long then <["query" := JString ""]> draft else draft)
                  !! "statConstraints" = draft !! "statConstraints").
  { destruct long; [|done]. by rewrite lookup_insert_ne. }
  rewrite Hsc.
  destruct (draft !! "statConstraints") as [value|] eqn:Hvalue.
  2: { split; [by intros [? ?]|by intros [? ?]]. }
  destruct (truthy (Some value)) eqn:Htruthy.
  2: { split; [by intros [? ?]|by intros [? ?]]. }
  destruct value as [|b|n|s|items|properties].
  - discriminate Htruthy.
  - split; [done|]. intros _. by eexists.
  - split; [done|]. intros _. by eexists.
  - split; [by intros [? ?]|by intros [? ?]].
  - destruct (deleteTiersEach nullToObjectMessage arrayDeleteMessage items)
      as [items'|message] eqn:Heach.
    + split; [by intros [? ?]|]. intros [_ Hin].
      apply (deleteTiersEach_throws nullToObjectMessage arrayDeleteMessage) in Hin as [m Hm].
      congruence.
    + split; [|intros _; by eexists]. intros _. split; [done|].
      apply (deleteTiersEach_throws nullToObjectMessage arrayDeleteMessage). eauto.
  - split; [done|]. intros _. by eexists.
Qed.




End ResolverJsonFurther.


(** ** The properties at concrete inputs *)

Import Samples.

(** Seven general mods are added to a state that holds three. *)
Example addGeneralMods_three_plus_seven :
  lbStateReducer t general defs threeMods (addGeneralMods sevenMods)
  = (stateWith (loadoutWith (Some (parametersWithMods [1; 2; 3; 4; 5]))) ∅ ∅,
     [ {| notify_type := "warning";
          notify_title := "LoadoutBuilder.UnableToAddAllMods";
          notify_body :=
            "LoadoutBuilder.UnableToAddAllModsBody|mods=Mod F, Mod G, Mod H, Mod I, Mod J" |} ]).
Proof. reflexivity. Qed.

Lemma addGeneralMods_cap_witness :
  exists a1 a2 r1 r2 r3 r4 r5,
    sevenMods = [a1; a2; r1; r2; r3; r4; r5]
    /\ currentMods
         (fst (lbStateReducer t general defs threeMods (addGeneralMods sevenMods)))
       = currentMods threeMods ++ [def_hash a1; def_hash a2]
    /\ generalModsCount general defs
         (currentMods
            (fst (lbStateReducer t general defs threeMods
                    (addGeneralMods sevenMods)))) = 5%nat
    /\ snd (lbStateReducer t general defs threeMods (addGeneralMods sevenMods))
       = [ {| notify_type := "warning";
              notify_title := t "LoadoutBuilder.UnableToAddAllMods" [];
              notify_body :=
                t "LoadoutBuilder.UnableToAddAllModsBody"
                  [("mods",
                    String.concat ", "
                      [name (displayProperties r1);
                       name (displayProperties r2);
                       name (displayProperties r3);
                       name (displayProperties r4);
                       name (displayProperties r5)])] |} ].
Proof.
  apply (addGeneralMods_cap t general defs threeMods sevenMods).
  - reflexivity.
  - reflexivity.
  - repeat constructor.
Defined.

(** Six general mods are locked by [lockedModsChanged]; adding one more is
    refused, and the state still holds six. *)
Lemma addGeneralMods_cap_counterexample :
  fst (lbStateReducer t general defs threeMods
         (lockedModsChanged [m1; m2; m3; m4; m5; m6])) = sixMods
  /\ ~ (generalModsCount general defs
          (currentMods
             (fst (lbStateReducer t general defs sixMods (addGeneralMods [m7]))))
        <= 5)%nat.
Proof.
  split; [reflexivity|].
  intros Hle. vm_compute in Hle. lia.
Qed.

Lemma pin_exclude_invariant_witness :
  exists state0,
    lbStateInit getCurrentStore statOrderFromLoadoutParameters
      statFiltersFromLoadoutParamaters initArgs = Return state0
    /\ pinExcludeInvariant
         (run t general defs state0
            [excludeItem helmetA; pinItem helmetB; excludeItem helmetA]).
Proof.
  eexists. split; [reflexivity|].
  match goal with
  | |- pinExcludeInvariant (run _ _ _ ?state0 ?actions) =>
      destruct (pin_exclude_invariant t general defs getCurrentStore
                  statOrderFromLoadoutParameters
                  statFiltersFromLoadoutParamaters
                  initArgs state0 actions eq_refl)
        as (_ & _ & Hrun & _)
  end.
  exact Hrun.
Defined.

(** Excluding an excluded helmet again, and excluding another one. *)
Example excludeItem_twice :
  lbStateReducer t general defs busy (excludeItem helmetA) = (busy, [])
  /\ prop (excludedItems
             (fst (lbStateReducer t general defs busy (excludeItem helmetB))))
       helmet = Some [helmetA; helmetB].
Proof. split; reflexivity. Qed.

Lemma excludeItem_spec_witness :
  lbStateReducer t general defs busy (excludeItem helmetA) = (busy, [])
  /\ prop (pinnedItems
             (fst (lbStateReducer t general defs busy (excludeItem chestC))))
       (bucket_hash (bucket chestC)) = None
  /\ prop (excludedItems
             (fst (lbStateReducer t general defs busy (excludeItem chestC))))
       (bucket_hash (bucket chestC))
     = Some (nullish (prop (excludedItems busy) (bucket_hash (bucket chestC))) []
             ++ [chestC]).
Proof.
  split.
  - destruct (excludeItem_spec t general defs busy helmetA) as (Hsame & _).
    apply Hsame. exists [helmetA]. split; [reflexivity|]. left. reflexivity.
  - destruct (excludeItem_spec t general defs busy chestC)
      as (_ & Hnew & _ & _).
    destruct Hnew as (Hpin & Hexcluded & _); [|by split].
    intros (l & Hl & _). vm_compute in Hl. discriminate Hl.
Defined.

(** Un-excluding the only excluded helmet leaves its slot absent. *)
Example unexcludeItem_last :
  prop (excludedItems
          (fst (lbStateReducer t general defs busy (unexcludeItem helmetA))))
    helmet = None.
Proof. reflexivity. Qed.

(** Changing the character empties a state with a pin and an exclusion. *)
Example changeCharacter_busy :
  fst (lbStateReducer t general defs busy (changeCharacter "store-2"))
  = {| loadout := loadoutWith None; statOrder := []; statFilters := ∅;
       pinnedItems := ∅; excludedItems := ∅;
       selectedStoreId := Some "store-2";
       modPicker := {| open := false; plugCategoryHashWhitelist := None |};
       compareSet := None |}.
Proof. reflexivity. Qed.

Lemma slot_actions_frame_witness :
  pinnedItems (fst (lbStateReducer t general defs busy (pinItem helmetB)))
    !! 14239492 = pinnedItems busy !! 14239492
  /\ loadout (fst (lbStateReducer t general defs busy (pinItem helmetB)))
     = loadout busy.
Proof.
  destruct (slot_actions_frame t general defs busy (pinItem helmetB) helmetB)
    as (Hslots & Hloadout & _); [by left|].
  split; [|exact Hloadout].
  apply (Hslots 14239492). vm_compute. discriminate.
Defined.

Lemma prior_configuration_wins_witness :
  priorLoadout priorAndShare = Some (priorLoadoutValue, Some "store-1")
  /\ resolve (Some defs) priorAndShare (Some savedLoadoutParameters)
     = {| resolved_loadout :=
            preloaded LockableBucketHashes (Some defs) priorLoadoutValue;
          resolved_storeId := Some "store-1";
          effects := [] |}.
Proof.
  split; [reflexivity|].
  apply (prior_configuration_wins t LockableBucketHashes
           defaultLoadoutParameters parseLoadoutFromURLParam
           JSON_parse_subclass JSON_parse_parameters parseInt newLoadout
           (Some defs) priorAndShare (Some savedLoadoutParameters) "4711"
           priorLoadoutValue (Some "store-1")).
  reflexivity.
Defined.

Example prior_configuration_as_is :
  resolved_loadout
    (resolve (Some defs) priorAndShare (Some savedLoadoutParameters))
  = priorLoadoutValue.
Proof. reflexivity. Qed.

(** The parameters of the specification's example, after sanitizing. *)
Example sanitize_sharedParameters :
  sanitizeLoadoutParameters sharedParameters
  = {| statConstraints :=
         Some [ {| statHash := 100; minTier := None; maxTier := None |} ];
       mods := Some [1; 2];
       query := Some "";
       assumeArmorMasterwork := None;
       lockArmorEnergyType := None;
       exoticArmorHash := None;
       otherParameters := {[ "clearMods" := "true" ]} |}.
Proof. reflexivity. Qed.




Example share_decode_failure_resolution :
  resolve None brokenShare (Some savedLoadoutParameters)
  = {| resolved_loadout :=
         {| lo_id := "new"; lo_classType := JsInt 3; lo_name := "";
            lo_items := [];
            lo_parameters := Some savedLoadoutParameters;
            lo_notes := Some "hello" |};
       resolved_storeId := None;
       effects :=
         [ ShowNotification
             {| notify_type := "error";
                notify_title := "Loadouts.BadLoadoutShare";
                notify_body :=
                  "Loadouts.BadLoadoutShareBody|error=Unexpected token" |};
           Navigate "/optimizer" true ] |}.
Proof. reflexivity. Qed.




(** ** The further properties at concrete inputs *)

Example removeLockedMod_middle :
  currentMods
    (fst (lbStateReducer t general defs
            (stateWith (loadoutWith (Some (parametersWithMods [1; 2; 1; 2])))
               ∅ ∅)
            (removeLockedMod m2))) = [1; 1; 2].
Proof. reflexivity. Qed.

Lemma removeLockedMod_first_witness :
  exists before after,
    currentMods threeMods = before ++ def_hash m2 :: after
    /\ ~ In (def_hash m2) before
    /\ currentMods
         (fst (lbStateReducer t general defs threeMods (removeLockedMod m2)))
       = before ++ after.
Proof.
  destruct (removeLockedMod_first t general defs threeMods m2)
    as (_ & Hpresent & _).
  apply Hpresent. right. left. reflexivity.
Defined.

Lemma addGeneralMods_removeLockedMod_witness :
  currentMods
    (fst (lbStateReducer t general defs
            (fst (lbStateReducer t general defs threeMods (addGeneralMods [m7])))
            (removeLockedMod m7)))
  = currentMods threeMods.
Proof.
  apply (addGeneralMods_removeLockedMod t general defs threeMods m7).
  - intros [H|[H|[H|[]]]]; discriminate H.
  - apply Nat.ltb_lt. reflexivity.
Defined.

Lemma addGeneralMods_app_witness :
  currentMods
    (fst (lbStateReducer t general defs threeMods
            (addGeneralMods ([m4; m5; m6] ++ [m7]))))
  = currentMods
      (fst (lbStateReducer t general defs
              (fst (lbStateReducer t general defs threeMods
                      (addGeneralMods [m4; m5; m6])))
              (addGeneralMods [m7]))).
Proof.
  apply (addGeneralMods_app t general defs threeMods [m4; m5; m6] [m7]).
  repeat constructor.
Defined.

Lemma reducer_frame_witness :
  exists storeId, changeCharacter "store-2" = changeCharacter storeId.
Proof.
  destruct (reducer_frame t general defs busy (changeCharacter "store-2"))
    as (_ & Hstore & _).
  apply Hstore. discriminate.
Defined.

Lemma reducer_notifications_witness :
  (exists mods,
     addGeneralMods sevenMods = addGeneralMods mods
     /\ (5 - generalModsCount general defs (currentMods threeMods)
         < length mods)%nat)
  /\ snd (lbStateReducer t general defs threeMods (addGeneralMods sevenMods))
     = [ {| notify_type := "warning";
            notify_title := t "LoadoutBuilder.UnableToAddAllMods" [];
            notify_body :=
              t "LoadoutBuilder.UnableToAddAllModsBody"
                [("mods",
                  String.concat ", "
                    (map (fun m => name (displayProperties m))
                       (drop
                          (5 - generalModsCount general defs
                                 (currentMods threeMods))
                          sevenMods)))] |} ]
  /\ snd (lbStateReducer t general defs threeMods (addGeneralMods [m4; m5]))
     = [].
Proof.
  destruct (reducer_notifications t general defs threeMods
              (addGeneralMods sevenMods)) as (_ & _ & Hshown & _ & Hmore).
  destruct (reducer_notifications t general defs threeMods
              (addGeneralMods [m4; m5])) as (_ & _ & _ & Hfits & _).
  split; [apply Hshown; discriminate|]. split.
  - apply Hmore; [reflexivity|]. apply Nat.ltb_lt. reflexivity.
  - apply (Hfits [m4; m5]); [reflexivity|]. apply Nat.leb_le. reflexivity.
Defined.

Lemma reducer_parameters_frame_witness :
  exoticArmorHash
    (nullish
       (lo_parameters
          (loadout (fst (lbStateReducer t general defs threeMods
                           (lockExotic 100)))))
       emptyParameters) = Some 100.
Proof.
  destruct (reducer_parameters_frame t general defs threeMods (lockExotic 100))
    as (_ & _ & _ & _ & _ & _ & _ & _ & _ & Hexotic & _).
  by apply Hexotic.
Defined.

Lemma setPinnedItems_last_witness :
  In helmetB [helmetA; chestC; helmetB]
  /\ bucket_hash (bucket helmetB) = helmet.
Proof.
  destruct (setPinnedItems_last t general defs busy
              [helmetA; chestC; helmetB] helmet) as (_ & Hpinned & _).
  apply Hpinned. reflexivity.
Defined.

Lemma excludeItem_unexcludeItem_witness :
  prop (excludedItems
          (fst (lbStateReducer t general defs
                  (fst (lbStateReducer t general defs busy
                          (excludeItem helmetB)))
                  (unexcludeItem helmetB))))
    (bucket_hash (bucket helmetB))
  = match prop (excludedItems busy) (bucket_hash (bucket helmetB)) with
    | Some (first :: rest) => Some (first :: rest)
    | _ => None
    end.
Proof.
  assert (Hfresh : ~ alreadyExcluded busy helmetB).
  { intros (l & Hl & Hin). vm_compute in Hl. injection Hl as <-.
    destruct Hin as [H|[]]. discriminate H. }
  destruct (excludeItem_unexcludeItem t general defs busy helmetB Hfresh)
    as (Hback & _).
  exact Hback.
Defined.

Lemma run_keeps_cap_witness :
  (generalModsCount general defs
     (currentMods (run t general defs threeMods severalActions)) <= 5)%nat.
Proof.
  apply (run_keeps_cap t general defs severalActions threeMods).
  - intros lockedMods [H|[H|[H|[H|[H|[H|[H|[]]]]]]]]; try discriminate H.
    injection H as <-. apply Nat.leb_le. reflexivity.
  - apply Nat.leb_le. reflexivity.
Defined.

Lemma lbStateInit_store_witness :
  (exists state,
     lbStateInit getCurrentStore statOrderFromLoadoutParameters
       statFiltersFromLoadoutParamaters initArgs = Return state
     /\ selectedStoreId state = Some (store_id store1))
  /\ lbStateInit getCurrentStore statOrderFromLoadoutParameters
       statFiltersFromLoadoutParamaters bareArgs = Throw "ReferenceError".
Proof.
  split.
  - destruct (lbStateInit_store getCurrentStore statOrderFromLoadoutParameters
                statFiltersFromLoadoutParamaters initArgs) as (Hmatching & _).
    destruct (Hmatching store1 eq_refl) as (_ & _ & Hstate).
    apply Hstate. by eexists.
  - destruct (lbStateInit_store getCurrentStore statOrderFromLoadoutParameters
                statFiltersFromLoadoutParamaters bareArgs)
      as (_ & _ & _ & Hreference & _).
    apply Hreference. split; [|reflexivity]. left. by eexists.
Defined.

Lemma useLbState_invariants_witness :
  exists state,
    useLbState t general getCurrentStore statOrderFromLoadoutParameters
      statFiltersFromLoadoutParamaters initArgs severalActions = Return state
    /\ pinExcludeInvariant state
    /\ excludedIdsDistinct state
    /\ lo_items (loadout state) = lo_items (initialLoadout initArgs).
Proof.
  eexists. split; [reflexivity|].
  match goal with
  | |- pinExcludeInvariant ?state /\ _ =>
      destruct (useLbState_invariants t general getCurrentStore
                  statOrderFromLoadoutParameters
                  statFiltersFromLoadoutParamaters
                  initArgs severalActions state eq_refl)
        as (Hpin & Hdistinct & _ & _ & _ & Hitems & _)
  end.
  split; [exact Hpin|]. split; [exact Hdistinct|exact Hitems].
Defined.

Lemma sanitize_idempotent_witness :
  sanitizeLoadoutParameters (parametersWithMods [1])
  = parametersWithMods [1].
Proof.
  destruct (sanitize_idempotent (parametersWithMods [1])) as (_ & Hfixed).
  apply Hfixed. repeat split; intros; discriminate.
Defined.

Lemma resolver_effects_witness :
  priorLoadout brokenShare = None
  /\ exists json,
       searchParams_get (search brokenShare) "l" = Some json /\ json <> ""
       /\ forall parsed,
            parseLoadoutFromURLParam json <> Return (Some parsed).
Proof.
  destruct (resolver_effects t LockableBucketHashes defaultLoadoutParameters
              parseLoadoutFromURLParam JSON_parse_subclass
              JSON_parse_parameters parseInt newLoadout
              None brokenShare (Some savedLoadoutParameters) "4711")
    as (_ & Hnavigated & _).
  apply Hnavigated. discriminate.
Defined.

Lemma share_decodes_to_nothing_witness :
  effects (resolveOrNull None nullShare (Some savedLoadoutParameters))
  = Navigate (pathname nullShare) true
    :: effects
         (resolveOrNull None
            (withSearch nullShare (withoutParam "l" (search nullShare)))
            (Some savedLoadoutParameters)).
Proof.
  apply (share_decodes_to_nothing t LockableBucketHashes
           defaultLoadoutParameters parseOrNull JSON_parse_subclass
           JSON_parse_parameters parseInt newLoadout
           None nullShare (Some savedLoadoutParameters) "4711" "null");
    try reflexivity.
  discriminate.
Defined.

Example share_decodes_to_nothing_resolution :
  effects (resolveOrNull None nullShare (Some savedLoadoutParameters))
  = [Navigate "/optimizer" true]
  /\ lo_notes
       (resolved_loadout
          (resolveOrNull None nullShare (Some savedLoadoutParameters)))
     = Some "hello".
Proof. split; reflexivity. Qed.

Lemma empty_parameter_ignored_witness :
  resolve None (withSearch emptyNotes (withoutParam "n" (search emptyNotes)))
    None
  = resolve None emptyNotes None.
Proof.
  apply (empty_parameter_ignored t LockableBucketHashes
           defaultLoadoutParameters parseLoadoutFromURLParam
           JSON_parse_subclass JSON_parse_parameters parseInt newLoadout
           None emptyNotes None "4711" "n").
  reflexivity.
Defined.

Lemma urlClassType_cases_witness :
  urlClassType parseInt (Some defs) classInUrl (Some exoticParameters)
  = parseInt "2"
  /\ urlClassType parseInt (Some defs) brokenShare (Some exoticParameters)
     = JsInt (def_classType exoticHelmet).
Proof.
  split.
  - destruct (urlClassType_cases parseInt (Some defs) classInUrl
                (Some exoticParameters)) as (Hexplicit & _).
    apply Hexplicit; [reflexivity|discriminate|discriminate].
  - destruct (urlClassType_cases parseInt (Some defs) brokenShare
                (Some exoticParameters)) as (_ & Hexotic & _).
    apply (Hexotic (or_introl eq_refl) defs 100); try reflexivity.
Defined.

Lemma preloaded_exotic_witness :
  exists d li exotic,
    Some defs = Some d /\ In li (lo_items exoticLoadout)
    /\ li_equip li = true
    /\ InventoryItem d !! li_hash li = Some exotic
    /\ truthy_string (equippingBlock exotic ≫= uniqueLabel) = true
    /\ In (nullish (bucketTypeHash <$> inventory exotic) 0)
         LockableBucketHashes
    /\ truthy_number (lo_parameters exoticLoadout ≫= exoticArmorHash) = false
    /\ lo_parameters
         (preloaded LockableBucketHashes (Some defs) exoticLoadout)
       ≫= exoticArmorHash = Some (def_hash exotic).
Proof.
  destruct (preloaded_exotic LockableBucketHashes (Some defs) exoticLoadout)
    as (_ & Hfilled & _).
  apply Hfilled. intros Hsame.
  apply (f_equal lo_parameters) in Hsame. vm_compute in Hsame.
  discriminate Hsame.
Defined.

Example preloaded_exoticLoadout :
  lo_parameters (preloaded LockableBucketHashes (Some defs) exoticLoadout)
  = Some exoticParameters.
Proof. reflexivity. Qed.

Lemma container_hook_agreement_witness :
  resolved_loadout (resolve None priorAndShare (Some savedLoadoutParameters))
  = fst (Container.useInitialLoadout t defaultLoadoutParameters
           parseLoadoutFromURLParam JSON_parse_subclass JSON_parse_parameters
           parseInt newLoadout None priorAndShare
           (Some savedLoadoutParameters) "4711").
Proof.
  destruct (container_hook_agreement t LockableBucketHashes
              defaultLoadoutParameters parseLoadoutFromURLParam
              JSON_parse_subclass JSON_parse_parameters parseInt newLoadout
              None priorAndShare (Some savedLoadoutParameters) "4711")
    as (_ & _ & Hnone).
  by apply Hnone.
Defined.


(** The long query of a prior loadout is synchronised, the long query of
    parameters of the declared type in the URL is not. *)
Example containerSync_prior_and_url :
  containerSync (resolve None priorAndShare None)
  = [setSearchQuery (string_of_list_ascii (repeat "q"%char 3000))]
  /\ containerSync (resolve None parametersInUrl None) = [].
Proof. split; reflexivity. Qed.


Lemma saved_parameters_as_they_are_witness :
  lo_parameters
    (resolved_loadout (resolve None brokenShare (Some savedLoadoutParameters)))
  = Some savedLoadoutParameters.
Proof.
  apply (saved_parameters_as_they_are t LockableBucketHashes
           defaultLoadoutParameters parseLoadoutFromURLParam
           JSON_parse_subclass JSON_parse_parameters parseInt newLoadout
           None brokenShare (Some savedLoadoutParameters) "4711");
    try reflexivity.
  by left.
Defined.
